(** * Vehicle insurance renewal: status evaluation, premium and billing

    A shallow embedding of [vehicleregestration.cpp].

    Numeric types.
    - [double] is IEEE 754 binary64 with round-to-nearest-even: Rocq's
      primitive [float], whose operations are specified by [SpecFloat].
      A decimal literal such as [0.025] denotes the nearest binary64
      value, as it does in the C++ source.
    - [int] and [long long] values are carried in [Z].  Signed overflow
      is undefined behaviour in C++.  Two [int] operations overflow on
      input that the program accepts: [currentYear - year] in
      [getAgeFactor] and [year += 1] in [calculateRenewalDate].  They
      are written as a two's-complement machine computes them, with
      the wrap-around ([int_sub], [int_add]), and a statement about the
      exact difference or sum carries the range in which nothing
      overflows.  The explicit narrowing [static_cast<int>] of a
      [long long] is defined and is written out with its wrap-around.
    - [std::string] is [string]; [unsigned char] is [ascii].

    The environment.
    - [std::mktime] is taken with a 64-bit [time_t] and where it
      succeeds: it returns -1 for a date whose normalised year does not
      fit [tm_year], and [dateToTimeT] does not follow it there.
      [dateToTimeT] uses the offset 0 from UTC; [dateToTimeT_in] and
      [daysBetween_in] take the offset of the zone as a parameter.  In
      a zone whose offset changes by less than twelve hours between two
      dates, noon to noon is a whole number of days once rounded, the
      same number as for the offset 0.  The quotient
      [diffSec / 86400.0] is taken exactly: for the offset 0 it is an
      integer, which a double holds for any two dates less than 2^53
      seconds apart, and in a zone it stays 1/86400 or more away from
      the halves that decide the rounding.
    - [getCurrentSystemYear()] is the argument [currentYear].
    - Console input is an explicit argument ([Console]); text written
      to [std::cout] is not modelled, except for the message that tells
      how a renewal ended ([Outcome]).
    - The input helpers are functions of what is typed: [getLineTrimmed]
      of the line read, [getValidDate] of the attempts made at its
      prompt.  [main] takes the values they return. *)

From Stdlib Require Import ZArith Lia Bool String Ascii List.
From Stdlib Require Import Uint63 Floats.
From Stdlib Require Import DecimalString DecimalPos DecimalZ.

Set Warnings "-inexact-float".

Local Open Scope string_scope.
Local Open Scope Z_scope.

(** ** Machine integers *)

Definition INT_MIN : Z := - 2 ^ 31.
Definition INT_MAX : Z := 2 ^ 31 - 1.

Definition in_int (z : Z) : Prop := INT_MIN <= z <= INT_MAX.

(** [static_cast<int>(x)] for a [long long] x: reduction modulo 2^32
    into the signed range. *)
Definition static_cast_int (z : Z) : Z :=
  (z + 2 ^ 31) mod 2 ^ 32 - 2 ^ 31.

(** [a - b] and [a + b] on [int].  Where the exact result is not an
    [int] the C++ operation overflows, which is undefined behaviour; the
    result is written as a two's-complement machine computes it, reduced
    into the range of [int]. *)
Definition int_sub (a b : Z) : Z := static_cast_int (a - b).
Definition int_add (a b : Z) : Z := static_cast_int (a + b).

(** Conversion of an [int] to [double] (exact for every [int]). *)
Definition int_to_double (z : Z) : float :=
  if z <? 0 then (- of_uint63 (Uint63.of_Z (- z)))%float
  else of_uint63 (Uint63.of_Z z).

(** [std::max] and [std::min]: [max(a,b) = (a < b) ? b : a] and
    [min(a,b) = (b < a) ? b : a]. *)
Definition std_max (a b : float) : float := if (a <? b)%float then b else a.
Definition std_min (a b : float) : float := if (b <? a)%float then b else a.

(** [std::tolower] and [std::toupper] in the "C" locale. *)
Definition tolower (c : ascii) : ascii :=
  let n := N_of_ascii c in
  if ((65 <=? n) && (n <=? 90))%N then ascii_of_N (n + 32) else c.

Definition toupper (c : ascii) : ascii :=
  let n := N_of_ascii c in
  if ((97 <=? n) && (n <=? 122))%N then ascii_of_N (n - 32) else c.

(** [std::transform(s.begin(), s.end(), s.begin(), f)] *)
Fixpoint transform (f : ascii -> ascii) (s : string) : string :=
  match s with
  | EmptyString => EmptyString
  | String c s' => String (f c) (transform f s')
  end.

(** ** Helper structures *)

Module PolicyDate.
Record t := mk { day : Z; month : Z; year : Z }.
End PolicyDate.

Module Policy.
Record t := mk {
  registrationDate : PolicyDate.t;
  renewalDueDate : PolicyDate.t;
  status : string
}.
End Policy.

(** ** Date utilities *)

(** Day number of a civil date, counted from 1970-01-01, in the proleptic
    Gregorian calendar.  It is linear in [d], so a day beyond the end of
    the month runs on into the next one, as [mktime] normalises it. *)
Definition days_from_civil (y m d : Z) : Z :=
  let y' := if m <=? 2 then y - 1 else y in
  let era := y' / 400 in
  let yoe := y' - era * 400 in
  let mp := (m + 9) mod 12 in
  let doy := (153 * mp + 2) / 5 + d - 1 in
  let doe := yoe * 365 + yoe / 4 - yoe / 100 + doy in
  era * 146097 + doe - 719468.

(** [std::mktime] of the broken-down time [year-1900, month-1, day,
    12:00:00]: seconds since the epoch, for a zone with a fixed offset
    (taken as 0).  A month outside 1..12 carries into the year.  This
    is [mktime] where [year - 1900] and [month - 1] are [int]s and the
    normalised year fits [tm_year]; beyond that [mktime] fails and
    returns -1, which this function does not do. *)
Definition dateToTimeT (date : PolicyDate.t) : Z :=
  let tm_year := PolicyDate.year date - 1900 in
  let tm_mon := PolicyDate.month date - 1 in
  let y := tm_year + 1900 + tm_mon / 12 in
  let m := tm_mon mod 12 + 1 in
  days_from_civil y m (PolicyDate.day date) * 86400 + 12 * 3600.

(** [std::llround(n / d)] for [d > 0]: nearest integer, halves away
    from zero. *)
Definition llround_div (n d : Z) : Z :=
  Z.sgn n * ((2 * Z.abs n + d) / (2 * d)).

(** (d1 - d2) in days *)
Definition daysBetween (d1 d2 : PolicyDate.t) : Z :=
  let t1 := dateToTimeT d1 in
  let t2 := dateToTimeT d2 in
  let diffSec := t1 - t2 in
  llround_div diffSec (60 * 60 * 24).

(** [dateToTimeT] and [daysBetween] in any time zone.  [utcOffset date]
    is the offset from UTC, in seconds, that the zone has at noon of the
    date: [mktime] returns the local time read as UTC, less that offset.
    [dateToTimeT] and [daysBetween] are the case of the offset 0. *)
Definition dateToTimeT_in (utcOffset : PolicyDate.t -> Z)
    (date : PolicyDate.t) : Z :=
  dateToTimeT date - utcOffset date.

Definition daysBetween_in (utcOffset : PolicyDate.t -> Z)
    (d1 d2 : PolicyDate.t) : Z :=
  let t1 := dateToTimeT_in utcOffset d1 in
  let t2 := dateToTimeT_in utcOffset d2 in
  let diffSec := t1 - t2 in
  llround_div diffSec (60 * 60 * 24).

(** [renewalDate.year += 1] on the [int] field. *)
Definition calculateRenewalDate (from : PolicyDate.t) : PolicyDate.t :=
  PolicyDate.mk (PolicyDate.day from) (PolicyDate.month from)
    (int_add (PolicyDate.year from) 1).

(** The day that [dateToTimeT] places the date on: the time it returns
    is noon of that day. *)
Definition dayNumber (date : PolicyDate.t) : Z :=
  let tm_mon := PolicyDate.month date - 1 in
  days_from_civil (PolicyDate.year date - 1900 + 1900 + tm_mon / 12)
    (tm_mon mod 12 + 1) (PolicyDate.day date).

(** [ostream << int]: the decimal digits, after a minus sign for a
    negative number. *)
Definition print_int (z : Z) : string := NilZero.string_of_int (Z.to_int z).

(** [std::setw(2) << std::setfill('0')] in front of one field: text
    shorter than two characters is padded on the left with the fill
    character, longer text is written as it is. *)
Definition setw2_fill0 (s : string) : string :=
  if (String.length s <? 2)%nat then "0" ++ s else s.

Definition dateToString (date : PolicyDate.t) : string :=
  setw2_fill0 (print_int (PolicyDate.day date)) ++ "/"
  ++ setw2_fill0 (print_int (PolicyDate.month date)) ++ "/"
  ++ print_int (PolicyDate.year date).

(** ** Vehicle *)

Module Vehicle.
Record t := mk {
  make : string;
  model : string;
  year : Z;
  originalValue : float;
  fuelType : string;
  policy : Policy.t
}.

(** The constructor [Vehicle(m, mod, y, val, ft, regDate)]. *)
Definition new (m mod_ : string) (y : Z) (val : float) (ft : string)
    (regDate : PolicyDate.t) : t :=
  mk m mod_ y val ft
    (Policy.mk regDate (calculateRenewalDate regDate) "New").

Definition getRenewalDueDate (v : t) : PolicyDate.t :=
  Policy.renewalDueDate (policy v).
Definition getRegistrationDate (v : t) : PolicyDate.t :=
  Policy.registrationDate (policy v).
Definition getPolicyStatus (v : t) : string :=
  Policy.status (policy v).

Definition setPolicyStatus (v : t) (s : string) : t :=
  mk (make v) (model v) (year v) (originalValue v) (fuelType v)
    (Policy.mk (Policy.registrationDate (policy v))
       (Policy.renewalDueDate (policy v)) s).

Definition setRenewalDueDate (v : t) (d : PolicyDate.t) : t :=
  mk (make v) (model v) (year v) (originalValue v) (fuelType v)
    (Policy.mk (Policy.registrationDate (policy v)) d
       (Policy.status (policy v))).
End Vehicle.

(** ** Insurance calculator *)

Module InsuranceCalculator.
Definition BASE_RATE_PERCENTAGE : float := 0.025%float.
Definition AGE_DEPRECIATION_RATE : float := 0.03%float.
Definition MINIMUM_AGE_FACTOR : float := 0.7%float.
Definition MINIMUM_PREMIUM : float := 5000%float.
Definition GRACE_PERIOD_DAYS : Z := 30.
Definition FINE_PER_DAY : float := 50%float.

Definition getBaseRate (vehicle : Vehicle.t) : float :=
  (Vehicle.originalValue vehicle * BASE_RATE_PERCENTAGE)%float.

(** [currentYear] is the result of [getCurrentSystemYear()]; the
    subtraction is the one of [int]. *)
Definition getAgeFactor (currentYear year : Z) : float :=
  let age := Z.max 0 (int_sub currentYear year) in
  let factor := (1 - int_to_double age * AGE_DEPRECIATION_RATE)%float in
  std_max MINIMUM_AGE_FACTOR factor.

Definition getFuelTypeAdjustment (fuelType : string) : float :=
  let f := transform tolower fuelType in
  if String.eqb f "electric" then (-500)%float
  else if String.eqb f "diesel" then 250%float
  else 0%float.

Definition calculatePremium (currentYear : Z) (vehicle : Vehicle.t) : float :=
  let baseRate := getBaseRate vehicle in
  let ageFactor := getAgeFactor currentYear (Vehicle.year vehicle) in
  let fuelAdjustment := getFuelTypeAdjustment (Vehicle.fuelType vehicle) in
  let premium := (baseRate * ageFactor + fuelAdjustment)%float in
  if (premium <? MINIMUM_PREMIUM)%float then MINIMUM_PREMIUM else premium.

Definition calculateLateFine (daysOverdue : Z) : float :=
  if daysOverdue <=? GRACE_PERIOD_DAYS then 0%float
  else
    let fineDays := daysOverdue - GRACE_PERIOD_DAYS in
    (int_to_double fineDays * FINE_PER_DAY)%float.
End InsuranceCalculator.

(** ** Payment processor *)

Module BillBreakdown.
Record t := mk {
  basePremium : float;
  fine : float;
  discount : float;
  convenienceFee : float;
  emiInterest : float;
  gst : float;
  total : float
}.

(** The default constructor: every field 0.0. *)
Definition zero : t :=
  mk 0%float 0%float 0%float 0%float 0%float 0%float 0%float.
End BillBreakdown.

Module PaymentProcessor.
(** [enum Method]: the value of the enumeration carried as its integer,
    so that a value outside the enumerators can be written. *)
Definition Method : Type := Z.
Definition Card : Method := 1.
Definition UPI : Method := 2.
Definition NetBanking : Method := 3.
Definition Branch : Method := 4.
Definition EMI3 : Method := 5.
Definition EMI6 : Method := 6.

Definition GST_RATE : float := 0.18%float.

Definition applyPromo (code : string) (subtotalBeforeGST : float) : float :=
  let c := transform toupper code in
  if String.eqb c "LOYAL5" then
    std_min 500%float (0.05 * subtotalBeforeGST)%float
  else if String.eqb c "FIRST100" then 100%float
  else 0%float.

Definition quote (method : Method) (basePremium fine : float)
    (promoCode : string) : BillBreakdown.t :=
  (* Convenience fee (before GST) *)
  let conv :=
    if method =? Card then
      std_min 150%float (0.015 * (basePremium + fine))%float
    else if method =? UPI then 0%float
    else if method =? NetBanking then 10%float
    else if method =? Branch then 50%float
    else if method =? EMI3 then 0%float
    else if method =? EMI6 then 0%float
    else 0%float in
  (* EMI interest *)
  let months := 0 in
  let months := if method =? EMI3 then 3 else months in
  let months := if method =? EMI6 then 6 else months in
  let emiInt :=
    if months >? 0 then
      let principal := (basePremium + fine)%float in
      (0.12 * principal * (int_to_double months / 12))%float
    else 0%float in
  (* Promo before GST *)
  let subtotalBeforeGST := (basePremium + fine + conv + emiInt)%float in
  let discount := applyPromo promoCode subtotalBeforeGST in
  let subtotalBeforeGST :=
    std_max 0%float (subtotalBeforeGST - discount)%float in
  let gst := (subtotalBeforeGST * GST_RATE)%float in
  let total := (subtotalBeforeGST + gst)%float in
  BillBreakdown.mk basePremium fine discount conv emiInt gst total.

(** [confirmAndPay(b, m)] prints the summary of the bill and reads one
    character, [ch]; the answer is yes for [y] and [Y]. *)
Definition confirmAndPay (ch : ascii) (b : BillBreakdown.t) (m : Method)
    : bool :=
  Ascii.eqb ch "y"%char || Ascii.eqb ch "Y"%char.
End PaymentProcessor.

(** ** Input helpers *)

(** Membership in the set of characters [" \t\r\n"]. *)
Definition is_blank (c : ascii) : bool :=
  Ascii.eqb c " " || Ascii.eqb c "009" || Ascii.eqb c "013"
  || Ascii.eqb c "010".

(** [s.find_first_not_of(" \t\r\n")]; [None] stands for [npos]. *)
Fixpoint find_first_not_of (s : string) : option nat :=
  match s with
  | EmptyString => None
  | String c s' =>
      if is_blank c then option_map S (find_first_not_of s') else Some 0%nat
  end.

(** [s.find_last_not_of(" \t\r\n")]; [None] stands for [npos]. *)
Fixpoint find_last_not_of (s : string) : option nat :=
  match s with
  | EmptyString => None
  | String c s' =>
      match find_last_not_of s' with
      | Some i => Some (S i)
      | None => if is_blank c then None else Some 0%nat
      end
  end.

(** [getLineTrimmed(prompt)], as a function of the line [s] that
    [std::getline] reads.  [substring l n s] is [s.substr(l, n)].  The
    source computes [r - l + 1] only after the test [l == npos] has
    failed; [r] is then a position too ([find_last_of_first] below), so
    the last branch is never taken. *)
Definition getLineTrimmed (s : string) : string :=
  match find_first_not_of s with
  | None => ""
  | Some l =>
      match find_last_not_of s with
      | Some r => substring l (r - l + 1) s
      | None => ""
      end
  end.

(** One attempt at the prompt of [getValidDate]: either the extraction
    [std::cin >> date.day >> date.month >> date.year] fails, or it reads
    three numbers. *)
Inductive DateEntry :=
| Unreadable
| Entered (day month year : Z).

(** The test [ok] of [getValidDate]. *)
Definition getValidDate_ok (date : PolicyDate.t) : bool :=
  ((PolicyDate.month date >=? 1) && (PolicyDate.month date <=? 12)) &&
  ((PolicyDate.day date >=? 1) && (PolicyDate.day date <=? 31)) &&
  (PolicyDate.year date >? 1900).

(** [getValidDate(title)], as a function of the attempts the operator
    makes: the loop goes on until an attempt passes the test.  [None]:
    the attempts end without one that passes, and the loop does not
    return. *)
Fixpoint getValidDate (input : list DateEntry) : option PolicyDate.t :=
  match input with
  | nil => None
  | Unreadable :: rest => getValidDate rest
  | Entered d m y :: rest =>
      let date := PolicyDate.mk d m y in
      if getValidDate_ok date then Some date else getValidDate rest
  end.

(** ** Policy status and renewal flow *)

Module StatusResult.
Record t := mk {
  status : string;
  daysToDueOrOverdue : Z;
  fine : float;
  expired : bool
}.
End StatusResult.

Definition evaluateStatus (v : Vehicle.t) (currentDate : PolicyDate.t)
    : StatusResult.t :=
  let diff := daysBetween (Vehicle.getRenewalDueDate v) currentDate in
  if diff >=? 0 then
    StatusResult.mk "Active" diff 0%float false
  else
    let overdueDays := Z.abs diff in
    if overdueDays <=? InsuranceCalculator.GRACE_PERIOD_DAYS then
      StatusResult.mk "Due (Grace Period)" (- overdueDays) 0%float false
    else
      StatusResult.mk "OVERDUE / EXPIRED" (- overdueDays)
        (InsuranceCalculator.calculateLateFine (static_cast_int overdueDays))
        true.

(** What the operator enters during one renewal: the number read by
    [getValidInput<int>], the line returned by [getLineTrimmed] and the
    character read by [confirmAndPay]. *)
Record Console := mkConsole {
  enteredChoice : Z;
  enteredPromo : string;
  enteredConfirm : ascii
}.

Module BillAndMethod.
Record t := mk {
  bill : BillBreakdown.t;
  method : PaymentProcessor.Method;
  valid : bool
}.
End BillAndMethod.

Definition quoteAndChoosePayment (io : Console) (basePremium fine : float)
    : BillAndMethod.t :=
  let methodChoice := enteredChoice io in
  if (methodChoice <? 1) || (methodChoice >? 6) then
    BillAndMethod.mk BillBreakdown.zero PaymentProcessor.UPI false
  else
    let method := methodChoice in
    let promo := enteredPromo io in
    BillAndMethod.mk (PaymentProcessor.quote method basePremium fine promo)
      method true.

(** The message [performRenewal] ends with. *)
Inductive Outcome :=
| RenewalDisabled   (* "[INFO] Policy is NOT EXPIRED. Renewal is disabled." *)
| SelectionInvalid  (* "Payment selection invalid. Renewal not completed." *)
| PaymentCancelled  (* "Payment cancelled. Renewal not completed." *)
| Renewed (oldDue newDue : PolicyDate.t) (b : BillBreakdown.t)
    (m : PaymentProcessor.Method).  (* the receipt *)

(** [performRenewal(v, calc, currentDate)]: the vehicle is passed by
    reference, so the function returns it as it is left. *)
Definition performRenewal (currentYear : Z) (io : Console) (v : Vehicle.t)
    (currentDate : PolicyDate.t) : Vehicle.t * Outcome :=
  (* 1) Re-evaluate premium and status/fine *)
  let basePremium := InsuranceCalculator.calculatePremium currentYear v in
  let s := evaluateStatus v currentDate in
  (* Guard: renewal allowed ONLY if EXPIRED *)
  if negb (StatusResult.expired s) then (v, RenewalDisabled)
  else
    (* 2) Show details *)
    let v := Vehicle.setPolicyStatus v (StatusResult.status s) in
    (* 3) Payment quoting + confirmation *)
    let qm := quoteAndChoosePayment io basePremium (StatusResult.fine s) in
    if negb (BillAndMethod.valid qm) then (v, SelectionInvalid)
    else if negb (PaymentProcessor.confirmAndPay (enteredConfirm io)
                    (BillAndMethod.bill qm) (BillAndMethod.method qm)) then
      (v, PaymentCancelled)
    else
      (* 4) Update policy: next due is previous due + 1 year *)
      let oldDue := Vehicle.getRenewalDueDate v in
      let newDue := calculateRenewalDate oldDue in
      let v := Vehicle.setRenewalDueDate v newDue in
      let v := Vehicle.setPolicyStatus v "Active" in
      (v, Renewed oldDue newDue (BillAndMethod.bill qm)
            (BillAndMethod.method qm)).


(** [main()], as a function of the values the input helpers return: the
    make, model and fuel type from [getLineTrimmed], the year and the
    value from [getValidInput], the two dates from [getValidDate], and
    what is entered during the renewal.  It returns the vehicle as the
    program leaves it and the message the run ends with. *)
Definition main (currentYear : Z) (make model : string) (year : Z)
    (originalValue : float) (fuelType : string)
    (regDate currentDate : PolicyDate.t) (io : Console)
    : Vehicle.t * Outcome :=
  let userVehicle :=
    Vehicle.new make model year originalValue fuelType regDate in
  (* Initial status evaluation *)
  let status := evaluateStatus userVehicle currentDate in
  let userVehicle :=
    Vehicle.setPolicyStatus userVehicle (StatusResult.status status) in
  (* Renew only if EXPIRED (no prompt otherwise) *)
  if StatusResult.expired status then
    performRenewal currentYear io userVehicle currentDate
  else (userVehicle, RenewalDisabled).

(** ** Vocabulary of the statements *)

(** Every character of the string is in [" \t\r\n"]. *)
Fixpoint all_blank (s : string) : bool :=
  match s with
  | EmptyString => true
  | String c s' => is_blank c && all_blank s'
  end.

(** The last character of a string, if it has one. *)
Fixpoint last_char (s : string) : option ascii :=
  match s with
  | EmptyString => None
  | String c EmptyString => Some c
  | String _ s' => last_char s'
  end.

(** The string up to its last character outside [" \t\r\n"]. *)
Definition trim_end (s : string) : string :=
  match find_last_not_of s with
  | Some r => substring 0 (r + 1) s
  | None => ""
  end.

(** An attempt that [getValidDate] accepts. *)
Definition acceptable (e : DateEntry) : bool :=
  match e with
  | Unreadable => false
  | Entered d m y => getValidDate_ok (PolicyDate.mk d m y)
  end.

(** The three conditions under which [performRenewal] reaches step 4:
    the policy is expired, the method chosen is one of 1..6 and the
    answer to the payment question is [y] or [Y]. *)
Definition renewalCommits (io : Console) (v : Vehicle.t)
    (currentDate : PolicyDate.t) : bool :=
  StatusResult.expired (evaluateStatus v currentDate)
  && ((1 <=? enteredChoice io) && (enteredChoice io <=? 6))
  && (Ascii.eqb (enteredConfirm io) "y" || Ascii.eqb (enteredConfirm io) "Y").

(** ** Doubles as [SpecFloat] values *)

(** The double that an integer converts to. *)
Definition SFint (n : Z) : spec_float := binary_normalize prec emax n 0 false.

(** Zero, infinite or finite with sign [sx]: what rounding returns. *)
Definition SFsigned (sx : bool) (x : spec_float) : Prop :=
  match x with
  | S754_zero s | S754_infinity s | S754_finite s _ _ => s = sx
  | S754_nan => False
  end.

(** A zero, a positive finite number or plus infinity. *)
Definition SFnonneg (x : spec_float) : Prop :=
  match x with
  | S754_zero _ => True
  | S754_infinity s | S754_finite s _ _ => s = false
  | S754_nan => False
  end.

(** Neither infinite nor a NaN. *)
Definition SFbounded (x : spec_float) : Prop :=
  match x with
  | S754_zero _ | S754_finite _ _ _ => True
  | S754_infinity _ | S754_nan => False
  end.

Definition SFpositive_finite (x : spec_float) : Prop :=
  match x with
  | S754_finite false _ _ => True
  | _ => False
  end.

(** * Properties *)

(** ** Binary64 arithmetic

    The operations on [float] are specified by [SpecFloat]: a finite
    double is a sign, a mantissa and an exponent, and each operation
    rounds the exact result ([binary_round_aux]).  This part proves what
    the program needs of them: integers below 2^53 are computed with
    exactly, rounding never invents a NaN, and a value below 2^1023 does
    not overflow. *)

Lemma float_neq_by_ltb (x y z : float) :
  (x <? z)%float <> (y <? z)%float -> x <> y.
Proof. intros H E. apply H. now rewrite E. Qed.

Lemma pow2_pos (k : Z) : 0 <= k -> 0 < 2 ^ k.
Proof. intros. apply Z.pow_pos_nonneg; lia. Qed.

Lemma pow2_split (a b : Z) : 0 <= b <= a -> 2 ^ a = 2 ^ (a - b) * 2 ^ b.
Proof. intros. rewrite <- Z.pow_add_r by lia. f_equal. lia. Qed.

(** *** Digits and shifts *)

Lemma fexp_eq (x : Z) : fexp prec emax x = Z.max (x - 53) (- 1074).
Proof. reflexivity. Qed.

(** [digits2_pos p] is the number of binary digits of [p]. *)
Lemma digits2_pos_bounds (p : positive) :
  2 ^ (Zpos (digits2_pos p) - 1) <= Zpos p < 2 ^ Zpos (digits2_pos p).
Proof.
  induction p as [p IH | p IH |]; cbn [digits2_pos];
    [rewrite Pos2Z.inj_succ, (Pos2Z.inj_xI p)
    | rewrite Pos2Z.inj_succ, (Pos2Z.inj_xO p)
    | change (2 ^ (1 - 1)) with 1; change (2 ^ 1) with 2; lia];
    set (d := Zpos (digits2_pos p)) in *;
    assert (0 < d) by (unfold d; lia);
    replace (Z.succ d - 1) with (Z.succ (d - 1)) by lia;
    rewrite !Z.pow_succ_r by lia; lia.
Qed.

Lemma digits2_pos_unique (p : positive) (d : Z) :
  2 ^ (d - 1) <= Zpos p < 2 ^ d -> Zpos (digits2_pos p) = d.
Proof.
  intros [Hl Hu]. pose proof (digits2_pos_bounds p) as [Bl Bu].
  set (d' := Zpos (digits2_pos p)) in *.
  assert (0 < d') by (unfold d'; lia).
  destruct (Z.lt_trichotomy d' d) as [L | [E | G]];
    [exfalso | exact E | exfalso].
  - assert (2 ^ d' <= 2 ^ (d - 1)) by (apply Z.pow_le_mono_r; lia). lia.
  - destruct (Z.le_gt_cases 0 d) as [Hd | Hd].
    + assert (2 ^ d <= 2 ^ (d' - 1)) by (apply Z.pow_le_mono_r; lia). lia.
    + rewrite (Z.pow_neg_r 2 d) in Hu by lia. lia.
Qed.

Lemma shr_1_double (z : Z) :
  0 <= z ->
  shr_1 {| shr_m := 2 * z; shr_r := false; shr_s := false |}
  = {| shr_m := z; shr_r := false; shr_s := false |}.
Proof. destruct z; [reflexivity | reflexivity | lia]. Qed.

(** Shifting out [k] zero bits loses nothing: the round and sticky bits
    stay clear. *)
Lemma iter_shr_1_exact (k : positive) : forall z : Z,
  0 <= z ->
  iter_pos shr_1 k {| shr_m := z * 2 ^ Zpos k; shr_r := false; shr_s := false |}
  = {| shr_m := z; shr_r := false; shr_s := false |}.
Proof.
  induction k as [k IH | k IH |]; intros z Hz; cbn [iter_pos].
  - replace (z * 2 ^ Zpos k~1) with (2 * ((z * 2 ^ Zpos k) * 2 ^ Zpos k)).
    + pose proof (pow2_pos (Zpos k)).
      rewrite shr_1_double by nia.
      rewrite IH by nia. apply IH, Hz.
    + replace (Zpos k~1) with (Zpos k + Zpos k + 1) by lia.
      rewrite !Z.pow_add_r, Z.pow_1_r by lia. ring.
  - replace (z * 2 ^ Zpos k~0) with ((z * 2 ^ Zpos k) * 2 ^ Zpos k).
    + pose proof (pow2_pos (Zpos k)).
      rewrite IH by nia. apply IH, Hz.
    + replace (Zpos k~0) with (Zpos k + Zpos k) by lia.
      rewrite Z.pow_add_r by lia. ring.
  - rewrite Z.pow_1_r, Z.mul_comm. apply shr_1_double, Hz.
Qed.

(** [shr_fexp] on a mantissa that is a 53-bit number [c] times [2^j]
    returns [c] with location exact. *)
Lemma shr_fexp_exact (m c : positive) (j e E : Z) :
  2 ^ 52 <= Zpos c < 2 ^ 53 -> 0 <= j -> - 1074 <= E ->
  Zpos m = Zpos c * 2 ^ j -> e = E - j ->
  shr_fexp prec emax (Zpos m) e loc_Exact
  = ({| shr_m := Zpos c; shr_r := false; shr_s := false |}, E).
Proof.
  intros Hc Hj HE Hm He.
  assert (Hd : Zpos (digits2_pos m) = 53 + j).
  { apply digits2_pos_unique. rewrite Hm.
    replace (53 + j - 1) with (52 + j) by lia.
    rewrite !Z.pow_add_r by lia.
    pose proof (pow2_pos j). nia. }
  unfold shr_fexp. cbn [Zdigits2 shr_record_of_loc]. rewrite Hd, fexp_eq.
  replace (Z.max (53 + j + e - 53) (- 1074) - e) with j by lia.
  unfold shr. destruct j as [| k | k]; [| | lia].
  - f_equal; [| lia]. f_equal. lia.
  - rewrite Hm, iter_shr_1_exact by lia. f_equal. lia.
Qed.

(** Rounding a value that a 53-bit mantissa holds returns it unchanged. *)
Lemma binary_round_aux_exact (sx : bool) (m c : positive) (j e E : Z) :
  2 ^ 52 <= Zpos c < 2 ^ 53 -> 0 <= j -> - 1074 <= E <= 971 ->
  Zpos m = Zpos c * 2 ^ j -> e = E - j ->
  binary_round_aux prec emax sx (Zpos m) e loc_Exact = S754_finite sx c E.
Proof.
  intros Hc Hj HE Hm He. unfold binary_round_aux.
  rewrite (shr_fexp_exact m c j e E) by (assumption || lia).
  cbn [shr_m loc_of_shr_record round_nearest_even].
  rewrite (shr_fexp_exact c c 0 E E) by (assumption || lia).
  cbn [shr_m].
  replace (E <=? emax - prec) with true; [reflexivity |].
  symmetry. apply Z.leb_le. change (emax - prec) with 971. lia.
Qed.

Lemma Pos_iter_xO (p k : positive) :
  Zpos (Pos.iter xO p k) = Zpos p * 2 ^ Zpos k.
Proof.
  induction k as [| k IH] using Pos.peano_ind.
  - cbn [Pos.iter]. change (2 ^ 1) with 2. lia.
  - rewrite Pos.iter_succ, Pos2Z.inj_succ, Z.pow_succ_r by lia.
    rewrite (Pos2Z.inj_xO (Pos.iter xO p k)), IH. ring.
Qed.

Lemma shl_align_le (m : positive) (e e' : Z) :
  e' <= e ->
  Zpos (fst (shl_align m e e')) = Zpos m * 2 ^ (e - e') /\
  snd (shl_align m e e') = e'.
Proof.
  intros H. unfold shl_align.
  destruct (e' - e) as [| d | d] eqn:D; [| lia |]; cbn [fst snd].
  - replace (e - e') with 0 by lia. split; lia.
  - rewrite Pos_iter_xO. replace (e - e') with (Zpos d) by lia. split; lia.
Qed.

Lemma shl_align_ge (m : positive) (e e' : Z) :
  e <= e' -> shl_align m e e' = (m, e).
Proof.
  intros H. unfold shl_align.
  destruct (e' - e) as [| d | d] eqn:D; [reflexivity | reflexivity | lia].
Qed.

(** The same for [binary_round], which first brings a short mantissa to
    53 bits: [M * 2^e = c * 2^E] with [c] a 53-bit mantissa. *)
Lemma binary_round_exact (sx : bool) (M c : positive) (e E : Z) :
  2 ^ 52 <= Zpos c < 2 ^ 53 -> - 1074 <= E <= 971 ->
  Zpos M * 2 ^ Z.max 0 (e - E) = Zpos c * 2 ^ Z.max 0 (E - e) ->
  binary_round prec emax sx M e = S754_finite sx c E.
Proof.
  intros Hc HE HM. unfold binary_round.
  destruct (Z.le_gt_cases e E) as [L | G].
  - (* the mantissa is at least 53 bits long *)
    rewrite Z.max_l, Z.max_r, Z.mul_1_r in HM by lia.
    assert (Hd : Zpos (digits2_pos M) = 53 + (E - e)).
    { apply digits2_pos_unique. rewrite HM.
      replace (53 + (E - e) - 1) with (52 + (E - e)) by lia.
      rewrite !Z.pow_add_r by lia.
      pose proof (pow2_pos (E - e)). nia. }
    rewrite Hd, fexp_eq.
    replace (Z.max (53 + (E - e) + e - 53) (- 1074)) with E by lia.
    rewrite shl_align_ge by lia.
    apply (binary_round_aux_exact sx M c (E - e)); try assumption; lia.
  - rewrite Z.max_r, Z.max_l, Z.mul_1_r in HM by lia.
    assert (Hk : e - E < 53).
    { destruct (Z.lt_ge_cases (e - E) 53) as [? | Hge]; [assumption | exfalso].
      assert (2 ^ 53 <= 2 ^ (e - E)) by (apply Z.pow_le_mono_r; lia). nia. }
    assert (Hd : Zpos (digits2_pos M) = 53 - (e - E)).
    { apply digits2_pos_unique.
      replace (53 - (e - E) - 1) with (52 - (e - E)) by lia.
      pose proof (pow2_split 52 (e - E)). pose proof (pow2_split 53 (e - E)).
      pose proof (pow2_pos (e - E)).
      pose proof (pow2_pos (52 - (e - E))).
      pose proof (pow2_pos (53 - (e - E))). nia. }
    rewrite Hd, fexp_eq.
    replace (Z.max (53 - (e - E) + e - 53) (- 1074)) with E by lia.
    destruct (shl_align_le M e E) as [Hf Hs]; [lia |].
    destruct (shl_align M e E) as [mz ez]. cbn [fst snd] in Hf, Hs. subst ez.
    apply (binary_round_aux_exact sx mz c 0); try assumption; lia.
Qed.

(** *** Integers below 2^53

    Such an integer is a double, and products, sums and comparisons of
    such doubles are those of the integers as long as the result stays
    below 2^53. *)

(** The canonical form of a positive integer below 2^53. *)
Lemma SFint_canonical (n : Z) :
  0 < n < 2 ^ 53 ->
  exists (c : positive) (k : Z),
    SFint n = S754_finite false c (- k) /\
    2 ^ 52 <= Zpos c < 2 ^ 53 /\ 0 <= k <= 52 /\ Zpos c = n * 2 ^ k.
Proof.
  intros [Hp Hn]. destruct n as [| p | p]; try lia.
  pose proof (digits2_pos_bounds p) as [Bl Bu].
  set (d := Zpos (digits2_pos p)) in *.
  assert (Hd : 1 <= d <= 53).
  { split; [unfold d; lia |].
    destruct (Z.le_gt_cases d 53) as [? | G]; [assumption | exfalso].
    assert (2 ^ 53 <= 2 ^ (d - 1)) by (apply Z.pow_le_mono_r; lia). lia. }
  assert (Hc : 2 ^ 52 <= Zpos p * 2 ^ (53 - d) < 2 ^ 53).
  { pose proof (pow2_split 52 (d - 1)). pose proof (pow2_split 53 d).
    replace (52 - (d - 1)) with (53 - d) in * by lia.
    pose proof (pow2_pos (53 - d)). nia. }
  exists (Z.to_pos (Zpos p * 2 ^ (53 - d))), (53 - d).
  rewrite Z2Pos.id by lia.
  repeat split; try lia.
  unfold SFint, binary_normalize.
  apply binary_round_exact; rewrite ?Z2Pos.id by lia; try lia.
  rewrite Z.max_r, Z.max_l by lia.
  change (2 ^ 0) with 1. replace (0 - - (53 - d)) with (53 - d) by lia. lia.
Qed.

Lemma SFmul_int (a b : Z) :
  0 < a -> 0 < b -> a * b < 2 ^ 53 ->
  SF64mul (SFint a) (SFint b) = SFint (a * b).
Proof.
  intros Ha Hb Hab.
  destruct (SFint_canonical a) as (ca & ka & Ea & Ca & Ka & Va); [nia |].
  destruct (SFint_canonical b) as (cb & kb & Eb & Cb & Kb & Vb); [nia |].
  destruct (SFint_canonical (a * b)) as (cn & kn & En & Cn & Kn & Vn); [nia |].
  rewrite Ea, Eb, En. unfold SF64mul, SFmul. cbn [xorb].
  assert (Hprod : Zpos (ca * cb) = (a * b) * 2 ^ (ka + kb)).
  { rewrite Pos2Z.inj_mul, Va, Vb, Z.pow_add_r by lia. ring. }
  assert (Hj : kn <= ka + kb).
  { destruct (Z.le_gt_cases kn (ka + kb)) as [? | G]; [assumption | exfalso].
    pose proof (pow2_split kn (ka + kb)) as S.
    assert (2 <= 2 ^ (kn - (ka + kb))).
    { change 2 with (2 ^ 1) at 1. apply Z.pow_le_mono_r; lia. }
    assert (2 ^ 52 * 2 ^ 52 <= Zpos (ca * cb)) by (rewrite Pos2Z.inj_mul; nia).
    assert (Zpos cn = Zpos (ca * cb) * 2 ^ (kn - (ka + kb))).
    { rewrite Vn, Hprod, S by lia. ring. }
    change (2 ^ 52) with 4503599627370496 in *.
    change (2 ^ 53) with 9007199254740992 in *. nia. }
  apply (binary_round_aux_exact false (ca * cb) cn (ka + kb - kn));
    try assumption; try lia.
  rewrite Hprod, Vn, (pow2_split (ka + kb) kn) by lia. ring.
Qed.

Lemma SFadd_int (a b : Z) :
  0 < a -> 0 < b -> a + b < 2 ^ 53 ->
  SF64add (SFint a) (SFint b) = SFint (a + b).
Proof.
  intros Ha Hb Hab.
  destruct (SFint_canonical a) as (ca & ka & Ea & Ca & Ka & Va); [lia |].
  destruct (SFint_canonical b) as (cb & kb & Eb & Cb & Kb & Vb); [lia |].
  destruct (SFint_canonical (a + b)) as (cn & kn & En & Cn & Kn & Vn); [lia |].
  rewrite Ea, Eb, En. unfold SF64add, SFadd. cbn [cond_Zopp].
  set (ez := Z.min (- ka) (- kb)).
  destruct (shl_align_le ca (- ka) ez) as [Fa _]; [unfold ez; lia |].
  destruct (shl_align_le cb (- kb) ez) as [Fb _]; [unfold ez; lia |].
  set (ma := fst (shl_align ca (- ka) ez)) in *.
  set (mb := fst (shl_align cb (- kb) ez)) in *.
  change (Zpos ma + Zpos mb) with (Zpos (ma + mb)).
  unfold binary_normalize.
  assert (Hsum : Zpos (ma + mb) = (a + b) * 2 ^ (- ez)).
  { assert (Ta : Zpos ca * 2 ^ (- ka - ez) = a * 2 ^ (- ez)).
    { rewrite Va, (pow2_split (- ez) ka) by (unfold ez; lia).
      replace (- ka - ez) with (- ez - ka) by lia. ring. }
    assert (Tb : Zpos cb * 2 ^ (- kb - ez) = b * 2 ^ (- ez)).
    { rewrite Vb, (pow2_split (- ez) kb) by (unfold ez; lia).
      replace (- kb - ez) with (- ez - kb) by lia. ring. }
    rewrite Pos2Z.inj_add, Fa, Fb, Ta, Tb. ring. }
  apply binary_round_exact; try assumption; try lia.
  rewrite Hsum, Vn.
  destruct (Z.le_gt_cases ez (- kn)) as [L | G].
  - rewrite Z.max_l, Z.max_r by lia. change (2 ^ 0) with 1.
    rewrite (pow2_split (- ez) kn) by lia.
    replace (- kn - ez) with (- ez - kn) by lia. ring.
  - rewrite Z.max_r, Z.max_l by lia. change (2 ^ 0) with 1.
    rewrite (pow2_split kn (- ez)) by lia.
    replace (ez - - kn) with (kn - - ez) by lia. ring.
Qed.

Lemma SFcompare_int (a b : Z) :
  0 < a < 2 ^ 53 -> 0 < b < 2 ^ 53 ->
  SFcompare (SFint a) (SFint b) = Some (a ?= b).
Proof.
  intros Ha Hb.
  destruct (SFint_canonical a) as (ca & ka & Ea & Ca & Ka & Va); [lia |].
  destruct (SFint_canonical b) as (cb & kb & Eb & Cb & Kb & Vb); [lia |].
  rewrite Ea, Eb. cbn [SFcompare]. f_equal.
  pose proof (pow2_pos ka). pose proof (pow2_pos kb).
  destruct (Z.compare_spec (- ka) (- kb)) as [E | L | G].
  - assert (ka = kb) by lia. subst kb.
    change (Pos.compare_cont Eq ca cb) with (Zpos ca ?= Zpos cb).
    rewrite Va, Vb.
    destruct (Z.compare_spec a b), (Z.compare_spec (a * 2 ^ ka) (b * 2 ^ ka));
      try reflexivity; nia.
  - symmetry. apply Z.compare_lt_iff.
    destruct (Z.lt_ge_cases a b) as [? | Hge]; [assumption | exfalso].
    pose proof (pow2_split ka kb) as S.
    assert (2 <= 2 ^ (ka - kb)).
    { change 2 with (2 ^ 1) at 1. apply Z.pow_le_mono_r; lia. }
    assert (Zpos cb * 2 ^ (ka - kb) <= Zpos ca).
    { rewrite Va, Vb, S by lia. nia. }
    nia.
  - symmetry. apply Z.compare_gt_iff.
    destruct (Z.lt_ge_cases b a) as [? | Hge]; [assumption | exfalso].
    pose proof (pow2_split kb ka) as S.
    assert (2 <= 2 ^ (kb - ka)).
    { change 2 with (2 ^ 1) at 1. apply Z.pow_le_mono_r; lia. }
    assert (Zpos ca * 2 ^ (kb - ka) <= Zpos cb).
    { rewrite Va, Vb, S by lia. nia. }
    nia.
Qed.

(** *** Rounding never overflows below 2^1023 *)

Lemma shr_1_bound (mrs : shr_record) :
  0 <= shr_m mrs ->
  0 <= shr_m (shr_1 mrs) /\ 2 * shr_m (shr_1 mrs) <= shr_m mrs.
Proof.
  destruct mrs as [m r s]. cbn [shr_m]. intros Hm.
  destruct m as [| [p | p |] | p]; cbn [shr_1 shr_m]; lia.
Qed.

Lemma iter_shr_1_bound (k : positive) : forall mrs : shr_record,
  0 <= shr_m mrs ->
  0 <= shr_m (iter_pos shr_1 k mrs) /\
  shr_m (iter_pos shr_1 k mrs) * 2 ^ Zpos k <= shr_m mrs.
Proof.
  induction k as [k IH | k IH |]; intros mrs Hm; cbn [iter_pos].
  - destruct (shr_1_bound mrs Hm) as [A1 A2].
    destruct (IH _ A1) as [B1 B2]. destruct (IH _ B1) as [C1 C2].
    split; [assumption |].
    replace (Zpos k~1) with (Zpos k + Zpos k + 1) by lia.
    rewrite !Z.pow_add_r, Z.pow_1_r by lia.
    pose proof (pow2_pos (Zpos k)). nia.
  - destruct (IH _ Hm) as [B1 B2]. destruct (IH _ B1) as [C1 C2].
    split; [assumption |].
    replace (Zpos k~0) with (Zpos k + Zpos k) by lia.
    rewrite !Z.pow_add_r by lia.
    pose proof (pow2_pos (Zpos k)). nia.
  - rewrite Z.pow_1_r. destruct (shr_1_bound mrs Hm). lia.
Qed.

Lemma shr_record_of_loc_m (m : Z) (l : location) :
  shr_m (shr_record_of_loc m l) = m.
Proof. destruct l as [| []]; reflexivity. Qed.

(** What [shr_fexp] returns: the exponent is the larger of the two, and
    the mantissa lost at least that many bits. *)
Lemma shr_fexp_bound (m e : Z) (l : location) :
  0 <= m ->
  let r := shr_fexp prec emax m e l in
  snd r = Z.max e (fexp prec emax (Zdigits2 m + e)) /\
  0 <= shr_m (fst r) /\
  shr_m (fst r) * 2 ^ (snd r - e) <= m.
Proof.
  intros Hm. unfold shr_fexp, shr.
  set (t := fexp prec emax (Zdigits2 m + e)).
  destruct (t - e) as [| p | p] eqn:D; cbn [fst snd];
    rewrite ?shr_record_of_loc_m.
  - split; [lia |]. rewrite Z.sub_diag. change (2 ^ 0) with 1. lia.
  - destruct (iter_shr_1_bound p (shr_record_of_loc m l)) as [B1 B2];
      rewrite ?shr_record_of_loc_m in *; [assumption |].
    split; [lia |]. split; [assumption |].
    replace (e + Zpos p - e) with (Zpos p) by lia. assumption.
  - split; [lia |]. rewrite Z.sub_diag. change (2 ^ 0) with 1. lia.
Qed.

Lemma round_nearest_even_bound (m : Z) (l : location) :
  m <= round_nearest_even m l <= m + 1.
Proof.
  destruct l as [| []]; cbn [round_nearest_even]; try lia.
  destruct (Z.even m); lia.
Qed.

Lemma Zdigits2_le (z d : Z) : 0 <= z < 2 ^ d -> 0 <= d -> Zdigits2 z <= d.
Proof.
  intros [Hz Hlt] Hd. destruct z as [| p | p]; cbn [Zdigits2]; try lia.
  pose proof (digits2_pos_bounds p) as [Bl _].
  destruct (Z.le_gt_cases (Zpos (digits2_pos p)) d) as [? | G];
    [assumption | exfalso].
  assert (2 ^ d <= 2 ^ (Zpos (digits2_pos p) - 1))
    by (apply Z.pow_le_mono_r; lia).
  lia.
Qed.

(** Rounding returns a zero, a finite number or an infinity of the sign
    it is given: never a NaN. *)
Lemma binary_round_aux_signed (sx : bool) (m e : Z) (l : location) :
  0 <= m -> SFsigned sx (binary_round_aux prec emax sx m e l).
Proof.
  intros Hm. unfold binary_round_aux.
  destruct (shr_fexp_bound m e l Hm) as (_ & H1 & _).
  destruct (shr_fexp prec emax m e l) as [mrs' e']. cbn [fst snd] in *.
  pose proof (round_nearest_even_bound (shr_m mrs') (loc_of_shr_record mrs')).
  set (mr := round_nearest_even _ _) in *.
  destruct (shr_fexp_bound mr e' loc_Exact) as (_ & H2 & _); [lia |].
  destruct (shr_fexp prec emax mr e' loc_Exact) as [mrs'' e''].
  cbn [fst snd] in *.
  destruct (shr_m mrs'') as [| p | p]; [reflexivity | | lia].
  destruct (e'' <=? emax - prec); reflexivity.
Qed.

(** No overflow: a value below 2^1023 rounds to a finite number. *)
Lemma binary_round_aux_bounded (sx : bool) (m : positive) (e : Z)
    (l : location) :
  Zpos (digits2_pos m) + e <= 1023 -> e <= 971 ->
  SFbounded (binary_round_aux prec emax sx (Zpos m) e l).
Proof.
  intros HD He. unfold binary_round_aux.
  destruct (shr_fexp_bound (Zpos m) e l) as (E1 & P1 & B1); [lia |].
  destruct (shr_fexp prec emax (Zpos m) e l) as [mrs' e1]. cbn [fst snd] in *.
  cbn [Zdigits2] in E1. rewrite fexp_eq in E1.
  set (d := Zpos (digits2_pos m)) in *.
  pose proof (digits2_pos_bounds m) as [_ Bu]. fold d in Bu.
  assert (Hd : 0 < d) by (unfold d; lia).
  pose proof (round_nearest_even_bound (shr_m mrs') (loc_of_shr_record mrs'))
    as Hr.
  set (mr := round_nearest_even _ _) in *.
  destruct (shr_fexp_bound mr e1 loc_Exact) as (E2 & P2 & _); [lia |].
  destruct (shr_fexp prec emax mr e1 loc_Exact) as [mrs'' e2].
  cbn [fst snd] in *. rewrite fexp_eq in E2.
  (* the rounded mantissa has at most max (d + e - e1) 0 + 1 digits *)
  set (k := Z.max (d + e - e1) 0).
  assert (Hm1 : shr_m mrs' < 2 ^ k).
  { destruct (Z.le_gt_cases (e1 - e) d) as [L | G].
    - unfold k. rewrite Z.max_l by lia.
      pose proof (pow2_split d (e1 - e)) as S.
      replace (d - (e1 - e)) with (d + e - e1) in S by lia.
      pose proof (pow2_pos (e1 - e)). pose proof (pow2_pos (d + e - e1)).
      nia.
    - assert (2 ^ d <= 2 ^ (e1 - e)) by (apply Z.pow_le_mono_r; lia).
      pose proof (pow2_pos k). unfold k in *. nia. }
  assert (Hdr : Zdigits2 mr <= k + 1).
  { apply Zdigits2_le; [| unfold k; lia].
    rewrite Z.pow_add_r, Z.pow_1_r by (unfold k; lia).
    pose proof (pow2_pos k). unfold k in *. lia. }
  assert (He2 : e2 <= 971) by (unfold k in *; lia).
  destruct (shr_m mrs'') as [| p | p]; [exact I | | lia].
  replace (e2 <=? emax - prec) with true; [exact I |].
  symmetry. apply Z.leb_le. change (emax - prec) with 971. lia.
Qed.

Lemma digits2_pos_shift (m : positive) (k : Z) (m' : positive) :
  0 <= k -> Zpos m' = Zpos m * 2 ^ k ->
  Zpos (digits2_pos m') = Zpos (digits2_pos m) + k.
Proof.
  intros Hk Hm. apply digits2_pos_unique. rewrite Hm.
  pose proof (digits2_pos_bounds m) as [Bl Bu].
  replace (Zpos (digits2_pos m) + k - 1) with (Zpos (digits2_pos m) - 1 + k)
    by lia.
  rewrite !Z.pow_add_r by lia. pose proof (pow2_pos k). nia.
Qed.

Lemma binary_round_signed (sx : bool) (m : positive) (e : Z) :
  SFsigned sx (binary_round prec emax sx m e).
Proof.
  unfold binary_round. destruct (shl_align _ _ _) as [mz ez].
  apply binary_round_aux_signed. lia.
Qed.

Lemma binary_round_bounded (sx : bool) (m : positive) (e : Z) :
  Zpos (digits2_pos m) + e <= 1023 ->
  SFbounded (binary_round prec emax sx m e).
Proof.
  intros HD. unfold binary_round. rewrite fexp_eq.
  set (d := Zpos (digits2_pos m)) in *.
  set (t := Z.max (d + e - 53) (- 1074)).
  destruct (Z.le_gt_cases e t) as [L | G].
  - rewrite shl_align_ge by assumption.
    apply binary_round_aux_bounded; fold d; unfold t in *; lia.
  - destruct (shl_align_le m e t) as [Hf Hs]; [lia |].
    destruct (shl_align m e t) as [mz ez]. cbn [fst snd] in Hf, Hs. subst ez.
    apply binary_round_aux_bounded; [| unfold t; lia].
    rewrite (digits2_pos_shift m (e - t) mz) by (assumption || lia).
    fold d. lia.
Qed.

Lemma binary_normalize_not_nan (m e : Z) (s : bool) :
  binary_normalize prec emax m e s <> S754_nan.
Proof.
  destruct m as [| p | p]; cbn [binary_normalize]; [discriminate | |].
  - pose proof (binary_round_signed false p e) as H.
    intros E. rewrite E in H. exact H.
  - pose proof (binary_round_signed true p e) as H.
    intros E. rewrite E in H. exact H.
Qed.

(** *** Signs and comparisons *)

Lemma SFsigned_false_nonneg (x : spec_float) : SFsigned false x -> SFnonneg x.
Proof. destruct x; cbn; auto. Qed.

Lemma SFleb_zero_nonneg (x : spec_float) :
  SFleb (S754_zero false) x = true -> SFnonneg x.
Proof.
  destruct x as [s | [] | | [] m e]; cbn; try discriminate; auto.
Qed.

Lemma SFmul_nonneg (x y : spec_float) :
  SFnonneg x -> SFpositive_finite y -> SFnonneg (SF64mul x y).
Proof.
  destruct y as [sy | sy | | [] my ey]; try contradiction. intros Hx _.
  destruct x as [sx | sx | | sx mx ex]; cbn in *; try exact I;
    try contradiction; subst sx; try reflexivity.
  apply SFsigned_false_nonneg, binary_round_aux_signed. lia.
Qed.

Lemma SFadd_not_nan (x y : spec_float) :
  SFnonneg x -> SFbounded y -> SF64add x y <> S754_nan.
Proof.
  destruct x as [sx | sx | | sx mx ex], y as [sy | sy | | sy my ey];
    cbn [SFnonneg SFbounded]; try contradiction; intros Hx _;
    unfold SF64add, SFadd; try discriminate.
  - destruct sx, sy; discriminate.
  - apply binary_normalize_not_nan.
Qed.

(** [1.0 - y] is not plus infinity when [y] is not negative. *)
Lemma SFsub_one_not_pinf (y : spec_float) :
  SFnonneg y ->
  SF64sub (S754_finite false 4503599627370496 (- 52)) y <> S754_infinity false.
Proof.
  destruct y as [sy | sy | | sy my ey]; cbn [SFnonneg]; try contradiction;
    intros Hy; unfold SF64sub, SFsub; try discriminate.
  - subst sy. discriminate.
  - subst sy. cbn [cond_Zopp].
    set (ez := Z.min (- 52) ey).
    destruct (shl_align_le 4503599627370496 (- 52) ez) as [F1 _];
      [unfold ez; lia |].
    set (m1 := fst (shl_align 4503599627370496 (- 52) ez)) in *.
    set (m2 := fst (shl_align my ey ez)).
    assert (H1 : Zpos m1 = 2 ^ (- ez)).
    { rewrite F1. change 4503599627370496 with (2 ^ 52).
      rewrite <- Z.pow_add_r by (unfold ez; lia). f_equal. lia. }
    unfold binary_normalize.
    destruct (Zpos m1 - Zpos m2) as [| p | p] eqn:D; [discriminate | |].
    + pose proof (binary_round_bounded false p ez) as B.
      intros E. rewrite E in B. apply B.
      assert (Zpos (digits2_pos p) <= - ez); [| lia].
      apply (Zdigits2_le (Zpos p)); [rewrite <- H1; lia | unfold ez; lia].
    + pose proof (binary_round_signed true p ez) as B.
      intros E. rewrite E in B. discriminate B.
Qed.

Lemma SFltb_positive_finite (x y : spec_float) :
  SFpositive_finite x -> SFltb x y = true ->
  y = S754_infinity false \/ SFpositive_finite y.
Proof.
  destruct x as [sx | sx | | [] mx ex]; try contradiction. intros _.
  destruct y as [sy | [] | | [] my ey]; cbn; try discriminate; auto.
Qed.

(** Swapping the operands of a comparison reverses its result. *)
Lemma SFcompare_antisym (x y : spec_float) :
  SFcompare y x = option_map CompOpp (SFcompare x y).
Proof.
  destruct x as [sx | sx | | sx mx ex], y as [sy | sy | | sy my ey];
    cbn [SFcompare option_map]; try reflexivity;
    try (destruct sx; reflexivity); try (destruct sy; reflexivity);
    try (destruct sx, sy; reflexivity).
  f_equal.
  assert (P : Pos.compare_cont Eq my mx = CompOpp (Pos.compare_cont Eq mx my))
    by (symmetry; apply (Pos.compare_cont_antisym mx my Eq)).
  rewrite (Z.compare_antisym ex ey), P.
  destruct sx, sy, (ex ?= ey); cbn [CompOpp]; try reflexivity.
Qed.

Lemma SFcompare_none (x y : spec_float) :
  SFcompare x y = None -> x = S754_nan \/ y = S754_nan.
Proof.
  destruct x as [sx | sx | | sx mx ex], y as [sy | sy | | sy my ey];
    cbn [SFcompare]; try discriminate; auto.
Qed.

Lemma SFltb_false_leb (x y : spec_float) :
  x <> S754_nan -> y <> S754_nan -> SFltb x y = false -> SFleb y x = true.
Proof.
  intros Hx Hy. unfold SFltb, SFleb. rewrite (SFcompare_antisym x y).
  destruct (SFcompare x y) as [[] |] eqn:C; cbn; try discriminate;
    try reflexivity.
  destruct (SFcompare_none x y C); contradiction.
Qed.

Lemma SFcompare_eq_finite (x : spec_float) (s : bool) (m : positive) (e : Z) :
  SFcompare x (S754_finite s m e) = Some Eq -> x = S754_finite s m e.
Proof.
  destruct x as [sx | sx | | sx mx ex]; cbn [SFcompare]; try discriminate.
  - destruct sx, s; discriminate.
  - destruct sx, s; discriminate.
  - intros H. injection H as H.
    destruct sx, s; try discriminate;
      destruct (Z.compare_spec ex e) as [E | L | G]; try discriminate;
      subst ex; f_equal.
    + apply Pos.compare_eq. unfold Pos.compare.
      destruct (Pos.compare_cont Eq mx m); [reflexivity | |]; discriminate.
    + apply Pos.compare_eq. exact H.
Qed.

Lemma SFcompare_refl_finite (s : bool) (m : positive) (e : Z) :
  SFcompare (S754_finite s m e) (S754_finite s m e) = Some Eq.
Proof.
  cbn [SFcompare]. rewrite Z.compare_refl.
  change (Pos.compare_cont Eq m m) with (Pos.compare m m).
  rewrite Pos.compare_refl. destruct s; reflexivity.
Qed.

(** Raising a double that is not a NaN to a finite floor. *)
Lemma floor_at_finite (p c : float) (s : bool) (m : positive) (e : Z) :
  Prim2SF p <> S754_nan -> Prim2SF c = S754_finite s m e ->
  (if (p <? c)%float then c else p) = std_max c p /\
  (c <=? (if (p <? c)%float then c else p))%float = true.
Proof.
  intros Hp Hc. unfold std_max. rewrite !ltb_spec.
  assert (Hcc : (c <=? c)%float = true).
  { rewrite leb_spec, Hc. unfold SFleb. now rewrite SFcompare_refl_finite. }
  assert (Hcp : SFcompare (Prim2SF c) (Prim2SF p)
                = option_map CompOpp (SFcompare (Prim2SF p) (Prim2SF c)))
    by apply SFcompare_antisym.
  unfold SFltb. rewrite Hcp.
  destruct (SFcompare (Prim2SF p) (Prim2SF c)) as [[] |] eqn:C;
    cbn [option_map CompOpp] in *.
  - rewrite Hc in C. apply SFcompare_eq_finite in C. rewrite <- Hc in C.
    apply Prim2SF_inj in C. subst p. split; [reflexivity | exact Hcc].
  - split; [reflexivity | exact Hcc].
  - split; [reflexivity |]. rewrite leb_spec. unfold SFleb. now rewrite Hcp.
  - destruct (SFcompare_none _ _ C) as [N | N]; [contradiction |].
    rewrite Hc in N. discriminate.
Qed.


Lemma SFmul_comm (x y : spec_float) : SF64mul x y = SF64mul y x.
Proof.
  unfold SF64mul.
  destruct x as [sx | sx | | sx mx ex], y as [sy | sy | | sy my ey]; simpl;
    try reflexivity; try (now rewrite xorb_comm).
  now rewrite xorb_comm, Pos.mul_comm, Z.add_comm.
Qed.

(** *** Primitive doubles *)

Lemma float_mul_comm (x y : float) : (x * y)%float = (y * x)%float.
Proof.
  apply Prim2SF_inj. rewrite !mul_spec. apply SFmul_comm.
Qed.

Lemma leb_zero_nonneg (x : float) :
  (0 <=? x)%float = true -> SFnonneg (Prim2SF x).
Proof. rewrite leb_spec. apply SFleb_zero_nonneg. Qed.

Lemma to_Z_of_Z (n : Z) : 0 <= n < 2 ^ 63 -> Uint63.to_Z (Uint63.of_Z n) = n.
Proof.
  intros H. rewrite Uint63.of_Z_spec. apply Z.mod_small.
  change wB with (2 ^ 63). lia.
Qed.

(** The conversion of a non-negative integer is specified by [SFint]. *)
Lemma int_to_double_spec (n : Z) :
  0 <= n < 2 ^ 63 -> Prim2SF (int_to_double n) = SFint n.
Proof.
  intros H. unfold int_to_double.
  destruct (Z.ltb_spec n 0); [lia |].
  now rewrite of_uint63_spec, to_Z_of_Z.
Qed.

Lemma int_to_double_nonneg (n : Z) :
  0 <= n -> SFnonneg (Prim2SF (int_to_double n)).
Proof.
  intros H. unfold int_to_double.
  destruct (Z.ltb_spec n 0); [lia |].
  rewrite of_uint63_spec.
  pose proof (Uint63.to_Z_bounded (Uint63.of_Z n)) as B.
  destruct (Uint63.to_Z (Uint63.of_Z n)) as [| p | p];
    cbn [binary_normalize]; [exact I | | lia].
  apply SFsigned_false_nonneg, binary_round_signed.
Qed.

Lemma float_of_SFint (x : float) (n : Z) :
  0 <= n < 2 ^ 63 -> Prim2SF x = SFint n -> x = int_to_double n.
Proof.
  intros H E. apply Prim2SF_inj. now rewrite int_to_double_spec.
Qed.

(** ** Machine integers *)

Lemma static_cast_int_id (z : Z) : in_int z -> static_cast_int z = z.
Proof.
  unfold in_int, INT_MIN, INT_MAX, static_cast_int. intros H.
  rewrite Z.mod_small; lia.
Qed.

(** Without overflow the [int] operations are the exact ones. *)
Lemma int_sub_exact (a b : Z) : in_int (a - b) -> int_sub a b = a - b.
Proof. apply static_cast_int_id. Qed.

Lemma int_add_exact (a b : Z) : in_int (a + b) -> int_add a b = a + b.
Proof. apply static_cast_int_id. Qed.

(** With or without overflow, adding 1 gives another number. *)
Lemma int_add_1_neq (a : Z) : int_add a 1 <> a.
Proof.
  unfold int_add, static_cast_int.
  change (2 ^ 31) with 2147483648. change (2 ^ 32) with 4294967296.
  Z.to_euclidean_division_equations. lia.
Qed.

(** ** The late fine *)

(** Beyond the grace period the fine is the integer [(d - 30) * 50]. *)
Lemma calculateLateFine_SFint (d : Z) :
  30 < d <= INT_MAX ->
  Prim2SF (InsuranceCalculator.calculateLateFine d) = SFint ((d - 30) * 50).
Proof.
  unfold INT_MAX. intros H. unfold InsuranceCalculator.calculateLateFine,
    InsuranceCalculator.GRACE_PERIOD_DAYS, InsuranceCalculator.FINE_PER_DAY.
  destruct (Z.leb_spec d 30); [lia |].
  rewrite mul_spec, int_to_double_spec by lia.
  change (Prim2SF 50) with (SFint 50).
  apply SFmul_int; lia.
Qed.

(** The fine grows strictly with the days from day 30 on. *)
Lemma calculateLateFine_lt (d d' : Z) :
  30 <= d < d' -> d' <= INT_MAX ->
  (InsuranceCalculator.calculateLateFine d
     <? InsuranceCalculator.calculateLateFine d')%float = true.
Proof.
  intros H H'. unfold INT_MAX in H'.
  rewrite ltb_spec, (calculateLateFine_SFint d') by (unfold INT_MAX; lia).
  destruct (Z.eq_dec d 30) as [-> | Hne].
  - change (Prim2SF (InsuranceCalculator.calculateLateFine 30))
      with (S754_zero false).
    destruct (SFint_canonical ((d' - 30) * 50)) as (c & k & E & _); [lia |].
    rewrite E. reflexivity.
  - rewrite calculateLateFine_SFint by (unfold INT_MAX; lia).
    unfold SFltb. rewrite SFcompare_int by lia.
    replace ((d - 30) * 50 ?= (d' - 30) * 50) with Lt; [reflexivity |].
    symmetry. apply Z.compare_lt_iff. lia.
Qed.

(** C5.  For every [int] d, [calculateLateFine(d)] is 0 when [d <= 30]
    and [(d - 30) * 50.0] when [d > 30]; the product is computed without
    rounding, so the result is the integer [(d - 30) * 50] itself.  From
    day 30 on each further day adds exactly 50 and the fine grows
    strictly, up to the largest [int]: there is no cap. *)
Theorem calculateLateFine_formula (d : Z) :
  INT_MIN <= d <= INT_MAX ->
  (d <= 30 -> InsuranceCalculator.calculateLateFine d = 0%float) /\
  (30 < d ->
   InsuranceCalculator.calculateLateFine d
     = (int_to_double (d - 30) * 50)%float /\
   InsuranceCalculator.calculateLateFine d = int_to_double ((d - 30) * 50)) /\
  (30 <= d < INT_MAX ->
   InsuranceCalculator.calculateLateFine (d + 1)
     = (InsuranceCalculator.calculateLateFine d + 50)%float /\
   (InsuranceCalculator.calculateLateFine d
      <? InsuranceCalculator.calculateLateFine (d + 1))%float = true) /\
  (forall d' : Z, 30 <= d < d' -> d' <= INT_MAX ->
   (InsuranceCalculator.calculateLateFine d
      <? InsuranceCalculator.calculateLateFine d')%float = true).
Proof.
  intros Hd. unfold INT_MIN, INT_MAX in Hd. split; [| split; [| split]].
  - intros H. unfold InsuranceCalculator.calculateLateFine,
      InsuranceCalculator.GRACE_PERIOD_DAYS.
    destruct (Z.leb_spec d 30); [reflexivity | lia].
  - intros H. split.
    + unfold InsuranceCalculator.calculateLateFine,
        InsuranceCalculator.GRACE_PERIOD_DAYS.
      destruct (Z.leb_spec d 30); [lia | reflexivity].
    + apply float_of_SFint; [lia |].
      apply calculateLateFine_SFint. unfold INT_MAX. lia.
  - intros H. unfold INT_MAX in H.
    assert (Hn : Prim2SF (InsuranceCalculator.calculateLateFine (d + 1))
                 = SFint ((d - 30) * 50 + 50)).
    { rewrite calculateLateFine_SFint by (unfold INT_MAX; lia).
      f_equal. lia. }
    destruct (Z.eq_dec d 30) as [-> | Hne].
    + split; reflexivity.
    + assert (Hc : Prim2SF (InsuranceCalculator.calculateLateFine d)
                   = SFint ((d - 30) * 50))
        by (apply calculateLateFine_SFint; unfold INT_MAX; lia).
      split.
      * apply Prim2SF_inj. rewrite Hn, add_spec, Hc.
        change (Prim2SF 50) with (SFint 50).
        symmetry. apply SFadd_int; lia.
      * rewrite ltb_spec, Hn, Hc. unfold SFltb.
        rewrite SFcompare_int by lia.
        replace ((d - 30) * 50 ?= (d - 30) * 50 + 50) with Lt; [reflexivity |].
        symmetry. apply Z.compare_lt_iff. lia.
  - intros d' H H'. apply (calculateLateFine_lt d d'); assumption.
Qed.

Lemma calculateLateFine_formula_witness :
  InsuranceCalculator.calculateLateFine 74 = 2200%float /\
  InsuranceCalculator.calculateLateFine 75 = 2250%float /\
  InsuranceCalculator.calculateLateFine 75
    = (InsuranceCalculator.calculateLateFine 74 + 50)%float /\
  InsuranceCalculator.calculateLateFine INT_MAX = 107374180850%float.
Proof.
  split; [| split; [| split]].
  - destruct (calculateLateFine_formula 74) as (_ & H & _);
      [unfold INT_MIN, INT_MAX; lia |].
    destruct H as [_ H]; [lia |]. exact H.
  - reflexivity.
  - destruct (calculateLateFine_formula 74) as (_ & _ & H & _);
      [unfold INT_MIN, INT_MAX; lia |].
    apply H. unfold INT_MAX. lia.
  - reflexivity.
Defined.

(** ** The status classification *)

Section Status.
Variable v : Vehicle.t.
Variable currentDate : PolicyDate.t.

Lemma evaluateStatus_active :
  0 <= daysBetween (Vehicle.getRenewalDueDate v) currentDate ->
  evaluateStatus v currentDate
  = StatusResult.mk "Active"
      (daysBetween (Vehicle.getRenewalDueDate v) currentDate) 0%float false.
Proof.
  intros H. unfold evaluateStatus.
  destruct (Z.geb_spec
              (daysBetween (Vehicle.getRenewalDueDate v) currentDate) 0);
    [reflexivity | lia].
Qed.

Lemma evaluateStatus_grace :
  - 30 <= daysBetween (Vehicle.getRenewalDueDate v) currentDate < 0 ->
  evaluateStatus v currentDate
  = StatusResult.mk "Due (Grace Period)"
      (daysBetween (Vehicle.getRenewalDueDate v) currentDate) 0%float false.
Proof.
  intros H. unfold evaluateStatus.
  set (diff := daysBetween (Vehicle.getRenewalDueDate v) currentDate) in *.
  destruct (Z.geb_spec diff 0); [lia |].
  unfold InsuranceCalculator.GRACE_PERIOD_DAYS.
  destruct (Z.leb_spec (Z.abs diff) 30); [| lia].
  f_equal. lia.
Qed.

Lemma evaluateStatus_expired :
  daysBetween (Vehicle.getRenewalDueDate v) currentDate < - 30 ->
  evaluateStatus v currentDate
  = StatusResult.mk "OVERDUE / EXPIRED"
      (daysBetween (Vehicle.getRenewalDueDate v) currentDate)
      (InsuranceCalculator.calculateLateFine
         (static_cast_int
            (- daysBetween (Vehicle.getRenewalDueDate v) currentDate)))
      true.
Proof.
  intros H. unfold evaluateStatus.
  set (diff := daysBetween (Vehicle.getRenewalDueDate v) currentDate) in *.
  destruct (Z.geb_spec diff 0); [lia |].
  unfold InsuranceCalculator.GRACE_PERIOD_DAYS.
  destruct (Z.leb_spec (Z.abs diff) 30); [lia |].
  replace (Z.abs diff) with (- diff) by lia.
  f_equal. lia.
Qed.

Lemma evaluateStatus_expired_label :
  StatusResult.expired (evaluateStatus v currentDate) = true ->
  StatusResult.status (evaluateStatus v currentDate) = "OVERDUE / EXPIRED".
Proof.
  unfold evaluateStatus.
  destruct (_ >=? 0); [discriminate |].
  destruct (_ <=? _); [discriminate | reflexivity].
Qed.

(** A policy that is not expired carries no fine, whatever the dates. *)
Lemma evaluateStatus_not_expired_fine :
  StatusResult.expired (evaluateStatus v currentDate) = false ->
  StatusResult.fine (evaluateStatus v currentDate) = 0%float.
Proof.
  unfold evaluateStatus.
  destruct (_ >=? 0); [reflexivity |].
  destruct (_ <=? _); [reflexivity | discriminate].
Qed.

(** While the overdue days fit an [int], an expired policy carries a
    fine of at least 50. *)
Lemma evaluateStatus_expired_fine_in_range :
  - INT_MAX <= daysBetween (Vehicle.getRenewalDueDate v) currentDate ->
  StatusResult.expired (evaluateStatus v currentDate) = true ->
  (50 <=? StatusResult.fine (evaluateStatus v currentDate))%float = true.
Proof.
  intros Hr He.
  set (diff := daysBetween (Vehicle.getRenewalDueDate v) currentDate) in *.
  assert (C : 0 <= diff \/ - 30 <= diff < 0 \/ diff < - 30) by lia.
  destruct C as [C | [C | C]].
  - rewrite (evaluateStatus_active C) in He. discriminate.
  - rewrite (evaluateStatus_grace C) in He. discriminate.
  - rewrite (evaluateStatus_expired C). cbn [StatusResult.fine]. fold diff.
    unfold INT_MAX in Hr.
    rewrite static_cast_int_id by (unfold in_int, INT_MIN, INT_MAX; lia).
    rewrite leb_spec, calculateLateFine_SFint by (unfold INT_MAX; lia).
    change (Prim2SF 50) with (SFint 50). unfold SFleb.
    rewrite SFcompare_int by lia.
    destruct (Z.compare_spec 50 ((- diff - 30) * 50)); [reflexivity .. | lia].
Qed.

End Status.

(** X21.  Whatever the day difference [diff = daysBetween(dueDate,
    currentDate)], [evaluateStatus] assigns exactly one of the three
    statuses: "Active" exactly when [diff >= 0], "Due (Grace Period)"
    exactly when [0 > diff >= -30], "OVERDUE / EXPIRED" exactly when
    [diff < -30]; the first two come with [expired = false] and fine 0,
    the third with [expired = true] and the fine that
    [calculateLateFine] returns for the overdue days [-diff], passed as
    the [int] the function takes (the day count itself whenever it fits
    an [int]). *)
Theorem evaluateStatus_partition (v : Vehicle.t) (currentDate : PolicyDate.t)
    (diff : Z) :
  daysBetween (Vehicle.getRenewalDueDate v) currentDate = diff ->
  let res := evaluateStatus v currentDate in
  (StatusResult.status res = "Active" <-> 0 <= diff) /\
  (StatusResult.status res = "Due (Grace Period)" <-> - 30 <= diff < 0) /\
  (StatusResult.status res = "OVERDUE / EXPIRED" <-> diff < - 30) /\
  (0 <= diff ->
     StatusResult.expired res = false /\ StatusResult.fine res = 0%float) /\
  (- 30 <= diff < 0 ->
     StatusResult.expired res = false /\ StatusResult.fine res = 0%float) /\
  (diff < - 30 ->
     StatusResult.expired res = true /\
     StatusResult.fine res =
       InsuranceCalculator.calculateLateFine (static_cast_int (- diff)) /\
     (- diff <= INT_MAX ->
      StatusResult.fine res = InsuranceCalculator.calculateLateFine (- diff))).
Proof.
  intros Hd res.
  assert (C : 0 <= diff \/ - 30 <= diff < 0 \/ diff < - 30) by lia.
  destruct C as [C | [C | C]]; subst diff.
  - pose proof (evaluateStatus_active v currentDate C) as E.
    fold res in E. rewrite E. cbn.
    repeat split; intros; try reflexivity; try discriminate; lia.
  - pose proof (evaluateStatus_grace v currentDate C) as E.
    fold res in E. rewrite E. cbn.
    repeat split; intros; try reflexivity; try discriminate; lia.
  - pose proof (evaluateStatus_expired v currentDate C) as E.
    fold res in E. rewrite E. cbn.
    repeat split; intros; try reflexivity; try discriminate; try lia.
    rewrite static_cast_int_id; [reflexivity |].
    unfold in_int, INT_MIN, INT_MAX in *. lia.
Qed.

Lemma evaluateStatus_partition_witness :
  let v := Vehicle.new "Tata" "Nexon" 2020 500000%float "Diesel"
             (PolicyDate.mk 1 1 2023) in
  let res := evaluateStatus v (PolicyDate.mk 15 3 2024) in
  daysBetween (Vehicle.getRenewalDueDate v) (PolicyDate.mk 15 3 2024) = - 74 /\
  StatusResult.status res = "OVERDUE / EXPIRED" /\
  StatusResult.expired res = true /\
  StatusResult.fine res = InsuranceCalculator.calculateLateFine 74.
Proof.
  intros v res.
  assert (Hd : daysBetween (Vehicle.getRenewalDueDate v)
                 (PolicyDate.mk 15 3 2024) = - 74) by reflexivity.
  pose proof (evaluateStatus_partition v (PolicyDate.mk 15 3 2024) (- 74) Hd)
    as H.
  cbv zeta in H.
  destruct H as (_ & _ & H3 & _ & _ & H6).
  split; [exact Hd |].
  split; [apply H3; lia |].
  destruct H6 as (He & _ & Hf); [lia |].
  split; [exact He |].
  apply Hf. unfold INT_MAX. lia.
Defined.

(** C3.  The code breaks the last clause of the classification, "an
    expired policy has the fine [calculateLateFine(-diff)]", where the
    overdue days do not fit an [int].  For a policy due on 01/01/2025
    examined on 01/01/6000000 the difference is -2190715383 days and
    the status is "OVERDUE / EXPIRED" with [expired = true], as the
    classification says; the fine for 2190715383 overdue days is
    [(2190715383 - 30) * 50 = 109535767650], and the fine returned is
    0, because the overdue days are passed through
    [static_cast<int>]. *)
Theorem evaluateStatus_fine_narrowed :
  let v := Vehicle.new "Tata" "Nexon" 2020 500000%float "Diesel"
             (PolicyDate.mk 1 1 2024) in
  let today := PolicyDate.mk 1 1 6000000 in
  let res := evaluateStatus v today in
  let diff := daysBetween (Vehicle.getRenewalDueDate v) today in
  diff = - 2190715383 /\
  StatusResult.status res = "OVERDUE / EXPIRED" /\
  StatusResult.expired res = true /\
  InsuranceCalculator.calculateLateFine (- diff) = 109535767650%float /\
  StatusResult.fine res = 0%float /\
  (StatusResult.fine res
     <? InsuranceCalculator.calculateLateFine (- diff))%float = true /\
  StatusResult.fine res <> InsuranceCalculator.calculateLateFine (- diff).
Proof.
  cbv zeta. repeat split; try reflexivity.
  apply (float_neq_by_ltb _ _ 1%float). vm_compute. discriminate.
Qed.

(** C8.  The code breaks the invariant "expired implies fine >= 50":
    for a policy due on 01/01/2025 examined on 01/01/6000000 the
    difference is -2190715383 days; [static_cast<int>] turns the
    2190715383 overdue days into -2104251913, for which
    [calculateLateFine] returns 0.  The result is expired with fine 0. *)
Theorem evaluateStatus_expired_zero_fine :
  let v := Vehicle.new "Tata" "Nexon" 2020 500000%float "Diesel"
             (PolicyDate.mk 1 1 2024) in
  let today := PolicyDate.mk 1 1 6000000 in
  let res := evaluateStatus v today in
  daysBetween (Vehicle.getRenewalDueDate v) today = - 2190715383 /\
  static_cast_int 2190715383 = - 2104251913 /\
  StatusResult.status res = "OVERDUE / EXPIRED" /\
  StatusResult.expired res = true /\
  StatusResult.fine res = 0%float /\
  (50 <=? StatusResult.fine res)%float = false /\
  (0 <? StatusResult.fine res)%float = false.
Proof. cbv zeta. repeat split; reflexivity. Qed.

(** ** The premium *)

(** The age factor is a positive finite double: either 0.7 or a
    difference [1.0 - t] that exceeds it. *)
Lemma getAgeFactor_positive_finite (currentYear year : Z) :
  SFpositive_finite
    (Prim2SF (InsuranceCalculator.getAgeFactor currentYear year)).
Proof.
  unfold InsuranceCalculator.getAgeFactor,
    InsuranceCalculator.AGE_DEPRECIATION_RATE,
    InsuranceCalculator.MINIMUM_AGE_FACTOR.
  set (age := Z.max 0 (int_sub currentYear year)).
  set (t := (int_to_double age * 0.03)%float).
  assert (Ht : SFnonneg (Prim2SF t)).
  { unfold t. rewrite mul_spec. apply SFmul_nonneg.
    - apply int_to_double_nonneg. unfold age. lia.
    - exact I. }
  unfold std_max. destruct (0.7 <? 1 - t)%float eqn:L; [| exact I].
  rewrite ltb_spec in L.
  assert (P : SFpositive_finite (Prim2SF 0.7)) by exact I.
  destruct (SFltb_positive_finite _ _ P L) as [Inf | Fin]; [| exact Fin].
  exfalso. rewrite sub_spec in Inf.
  exact (SFsub_one_not_pinf _ Ht Inf).
Qed.

Lemma getFuelTypeAdjustment_bounded (fuelType : string) :
  SFbounded (Prim2SF (InsuranceCalculator.getFuelTypeAdjustment fuelType)).
Proof.
  unfold InsuranceCalculator.getFuelTypeAdjustment.
  destruct (String.eqb _ _); [exact I |].
  destruct (String.eqb _ _); exact I.
Qed.

(** The fuel type is matched whatever the case of its letters. *)
Example getFuelTypeAdjustment_examples :
  InsuranceCalculator.getFuelTypeAdjustment "Electric" = (-500)%float /\
  InsuranceCalculator.getFuelTypeAdjustment "ELECTRIC" = (-500)%float /\
  InsuranceCalculator.getFuelTypeAdjustment "diesel" = 250%float /\
  InsuranceCalculator.getFuelTypeAdjustment "DiEsEl" = 250%float /\
  InsuranceCalculator.getFuelTypeAdjustment "Petrol" = 0%float /\
  InsuranceCalculator.getFuelTypeAdjustment "" = 0%float.
Proof. repeat split; reflexivity. Qed.

(** C6.  The code breaks the formula at a manufacture year for which
    [currentYear - year] overflows.  For the manufacture year
    -2147483648, which [getValidInput<int>] accepts, and the current
    year 2024 the age [max(0, currentYear - year)] is 2147485672: the
    formula gives the factor 0.7 and, for a petrol vehicle of value
    500000, the premium 8750.  The [int] subtraction wraps to
    -2147481624, so the code takes the age 0, the factor 1.0 and
    returns 12500. *)
Theorem calculatePremium_year_overflow :
  let v := Vehicle.new "Tata" "Nexon" (- 2147483648) 500000%float "Petrol"
             (PolicyDate.mk 1 1 2023) in
  let age := Z.max 0 (2024 - Vehicle.year v) in
  let claimed :=
    std_max 5000
      (Vehicle.originalValue v * 0.025
       * std_max 0.7 (1 - 0.03 * int_to_double age) + 0)%float in
  in_int (Vehicle.year v) /\
  age = 2147485672 /\
  int_sub 2024 (Vehicle.year v) = - 2147481624 /\
  InsuranceCalculator.getAgeFactor 2024 (Vehicle.year v) = 1%float /\
  InsuranceCalculator.calculatePremium 2024 v = 12500%float /\
  claimed = 8750%float /\
  InsuranceCalculator.calculatePremium 2024 v <> claimed.
Proof.
  cbv zeta. split; [unfold in_int, INT_MIN, INT_MAX; cbn; lia |].
  repeat split; try reflexivity.
  apply (float_neq_by_ltb _ _ 10000%float). vm_compute. discriminate.
Qed.

(** X22.  For a vehicle of non-negative original value, a manufacture
    year for which [currentYear - year] is an [int], and any fuel type,
    [calculatePremium] returns
    [max(5000.0, originalValue * 0.025 * max(0.7, 1.0 - 0.03 * max(0,
    currentYear - manufactureYear)) + fuelAdjustment)], where the
    adjustment is -500 when the fuel type in lower case is "electric",
    +250 when it is "diesel" and 0 otherwise; the result is at least
    5000.0.  [currentYear] is the year the system clock gives. *)
Theorem calculatePremium_formula (currentYear : Z) (v : Vehicle.t) :
  (0 <=? Vehicle.originalValue v)%float = true ->
  in_int (currentYear - Vehicle.year v) ->
  let age := Z.max 0 (currentYear - Vehicle.year v) in
  let ageFactor := std_max 0.7 (1 - 0.03 * int_to_double age)%float in
  let fuel := transform tolower (Vehicle.fuelType v) in
  let fuelAdjustment :=
    if String.eqb fuel "electric" then (-500)%float
    else if String.eqb fuel "diesel" then 250%float
    else 0%float in
  InsuranceCalculator.calculatePremium currentYear v
    = std_max 5000
        (Vehicle.originalValue v * 0.025 * ageFactor + fuelAdjustment)%float /\
  (5000 <=? InsuranceCalculator.calculatePremium currentYear v)%float = true.
Proof.
  intros Hv Hy age ageFactor fuel fuelAdjustment.
  assert (Ea : ageFactor
               = InsuranceCalculator.getAgeFactor currentYear (Vehicle.year v)).
  { unfold ageFactor, InsuranceCalculator.getAgeFactor.
    rewrite (int_sub_exact _ _ Hy). fold age.
    now rewrite (float_mul_comm 0.03). }
  assert (Ef : fuelAdjustment
               = InsuranceCalculator.getFuelTypeAdjustment (Vehicle.fuelType v))
    by reflexivity.
  unfold InsuranceCalculator.calculatePremium,
    InsuranceCalculator.getBaseRate,
    InsuranceCalculator.BASE_RATE_PERCENTAGE,
    InsuranceCalculator.MINIMUM_PREMIUM.
  rewrite Ea, Ef.
  set (p := (Vehicle.originalValue v * 0.025
             * InsuranceCalculator.getAgeFactor currentYear (Vehicle.year v)
             + InsuranceCalculator.getFuelTypeAdjustment (Vehicle.fuelType v)
            )%float).
  apply (floor_at_finite p 5000 false 5497558138880000 (- 40));
    [| reflexivity].
  unfold p. rewrite add_spec. apply SFadd_not_nan.
  - rewrite mul_spec. apply SFmul_nonneg.
    + rewrite mul_spec. apply SFmul_nonneg; [| exact I].
      apply leb_zero_nonneg, Hv.
    + apply getAgeFactor_positive_finite.
  - apply getFuelTypeAdjustment_bounded.
Qed.

Lemma calculatePremium_formula_witness :
  let v := Vehicle.new "Tata" "Nexon" 2020 500000%float "Diesel"
             (PolicyDate.mk 1 1 2023) in
  (0 <=? Vehicle.originalValue v)%float = true /\
  InsuranceCalculator.calculatePremium 2024 v
    = std_max 5000 (500000 * 0.025 * std_max 0.7 (1 - 0.03 * 4) + 250)%float /\
  InsuranceCalculator.calculatePremium 2024 v = 11250%float /\
  (5000 <=? InsuranceCalculator.calculatePremium 2024 v)%float = true.
Proof.
  intros v.
  assert (Hv : (0 <=? Vehicle.originalValue v)%float = true) by reflexivity.
  assert (Hy : in_int (2024 - Vehicle.year v))
    by (unfold in_int, INT_MIN, INT_MAX; cbn; lia).
  destruct (calculatePremium_formula 2024 v Hv Hy) as [Hf Hm].
  split; [exact Hv |].
  split; [exact Hf |].
  split; [reflexivity | exact Hm].
Defined.

(** ** The bill *)

Lemma quote_inputs (method : PaymentProcessor.Method)
    (basePremium fine : float) (promoCode : string) :
  let b := PaymentProcessor.quote method basePremium fine promoCode in
  BillBreakdown.basePremium b = basePremium /\ BillBreakdown.fine b = fine.
Proof. split; reflexivity. Qed.

(** The discount is the promotion applied to the subtotal before GST. *)
Lemma quote_discount (method : PaymentProcessor.Method)
    (basePremium fine : float) (promoCode : string) :
  let b := PaymentProcessor.quote method basePremium fine promoCode in
  BillBreakdown.discount b =
    PaymentProcessor.applyPromo promoCode
      (basePremium + fine + BillBreakdown.convenienceFee b
       + BillBreakdown.emiInterest b)%float.
Proof. reflexivity. Qed.

(** C2 (as amended).  For every payment method, base premium, fine and
    promo code, the bill returned by [quote] has
    [gst = 0.18 * max(0, basePremium + fine + convenienceFee + emiInterest
    - discount)] and
    [total = max(0, basePremium + fine + convenienceFee + emiInterest
    - discount) + gst]: the floor at 0 applies to the total as well as to
    the tax.  Where the subtotal after discount is positive the floor is
    the identity, and [total = basePremium + fine + convenienceFee +
    emiInterest - discount + gst]. *)
Theorem quote_total_gst (method : PaymentProcessor.Method)
    (basePremium fine : float) (promoCode : string) :
  let b := PaymentProcessor.quote method basePremium fine promoCode in
  let subtotal :=
    (BillBreakdown.basePremium b + BillBreakdown.fine b
     + BillBreakdown.convenienceFee b + BillBreakdown.emiInterest b
     - BillBreakdown.discount b)%float in
  BillBreakdown.gst b = (0.18 * std_max 0 subtotal)%float /\
  BillBreakdown.total b = (std_max 0 subtotal + BillBreakdown.gst b)%float /\
  ((0 <? subtotal)%float = true ->
   BillBreakdown.total b = (subtotal + BillBreakdown.gst b)%float).
Proof.
  intros b subtotal.
  assert (Hg : BillBreakdown.gst b = (std_max 0 subtotal * 0.18)%float)
    by reflexivity.
  assert (Ht : BillBreakdown.total b
               = (std_max 0 subtotal + BillBreakdown.gst b)%float)
    by reflexivity.
  split; [| split].
  - rewrite float_mul_comm. exact Hg.
  - exact Ht.
  - intros Hpos. rewrite Ht. unfold std_max. now rewrite Hpos.
Qed.

Lemma quote_total_gst_witness :
  let b := PaymentProcessor.quote PaymentProcessor.UPI 11250 2200 "FIRST100" in
  BillBreakdown.gst b = (0.18 * 13350)%float /\
  BillBreakdown.total b = (13350 + BillBreakdown.gst b)%float /\
  BillBreakdown.total b = 15753%float.
Proof.
  intros b.
  destruct (quote_total_gst PaymentProcessor.UPI 11250 2200 "FIRST100")
    as (Hg & _ & Ht).
  fold b in Hg, Ht.
  split; [exact Hg |].
  split; [apply Ht; reflexivity | reflexivity].
Defined.

(** C2 (as stated) fails where the discount exceeds the subtotal: with
    UPI, premium 0, fine 0 and promo FIRST100 the discount is 100, the
    total is 0, and [basePremium + fine + convenienceFee + emiInterest
    - discount + gst] is -100. *)
Lemma quote_total_counterexample :
  let b := PaymentProcessor.quote PaymentProcessor.UPI 0 0 "FIRST100" in
  let claimed :=
    (BillBreakdown.basePremium b + BillBreakdown.fine b
     + BillBreakdown.convenienceFee b + BillBreakdown.emiInterest b
     - BillBreakdown.discount b + BillBreakdown.gst b)%float in
  (0 <=? BillBreakdown.basePremium b)%float = true /\
  (0 <=? BillBreakdown.fine b)%float = true /\
  BillBreakdown.total b = 0%float /\
  claimed = (-100)%float /\
  BillBreakdown.total b <> claimed.
Proof.
  cbv zeta. repeat split; try reflexivity.
  apply (float_neq_by_ltb _ _ 0%float). vm_compute. discriminate.
Qed.

(** C4.  The convenience fee and EMI interest of the bill follow the
    schedule of the payment method: Card [min(150, 0.015 * (premium +
    fine))] and 0; UPI 0 and 0; NetBanking 10 and 0; Branch 50 and 0;
    EMI-3 and EMI-6 fee 0 and interest [0.12 * (premium + fine) *
    (months / 12)] with months 3 and 6. *)
Theorem quote_fee_schedule (basePremium fine : float) (promoCode : string) :
  let q m := PaymentProcessor.quote m basePremium fine promoCode in
  let fee m := BillBreakdown.convenienceFee (q m) in
  let interest m := BillBreakdown.emiInterest (q m) in
  (fee PaymentProcessor.Card = std_min 150 (0.015 * (basePremium + fine))%float
   /\ interest PaymentProcessor.Card = 0%float) /\
  (fee PaymentProcessor.UPI = 0%float
   /\ interest PaymentProcessor.UPI = 0%float) /\
  (fee PaymentProcessor.NetBanking = 10%float
   /\ interest PaymentProcessor.NetBanking = 0%float) /\
  (fee PaymentProcessor.Branch = 50%float
   /\ interest PaymentProcessor.Branch = 0%float) /\
  (fee PaymentProcessor.EMI3 = 0%float
   /\ interest PaymentProcessor.EMI3
      = (0.12 * (basePremium + fine) * (3 / 12))%float) /\
  (fee PaymentProcessor.EMI6 = 0%float
   /\ interest PaymentProcessor.EMI6
      = (0.12 * (basePremium + fine) * (6 / 12))%float).
Proof. cbv zeta. repeat split; reflexivity. Qed.

(** C9.  [quote] is a total function of the method value.  For a value
    outside the enumerators 1..6 both the fee switch and the month
    tests fall through: the fee and the interest are 0 and the bill is
    the one UPI gives for the same premium, fine and promo code. *)
Theorem quote_unknown_method (method : PaymentProcessor.Method)
    (basePremium fine : float) (promoCode : string) :
  method < 1 \/ 6 < method ->
  let b := PaymentProcessor.quote method basePremium fine promoCode in
  BillBreakdown.convenienceFee b = 0%float /\
  BillBreakdown.emiInterest b = 0%float /\
  b = PaymentProcessor.quote PaymentProcessor.UPI basePremium fine promoCode.
Proof.
  intros H.
  assert (E : forall k, 1 <= k <= 6 -> (method =? k) = false)
    by (intros k Hk; apply Z.eqb_neq; lia).
  unfold PaymentProcessor.quote, PaymentProcessor.Card, PaymentProcessor.UPI,
    PaymentProcessor.NetBanking, PaymentProcessor.Branch,
    PaymentProcessor.EMI3, PaymentProcessor.EMI6.
  rewrite !E by lia. cbn. repeat split; reflexivity.
Qed.

Lemma quote_unknown_method_witness :
  let b := PaymentProcessor.quote 7 11250 2200 "LOYAL5" in
  BillBreakdown.convenienceFee b = 0%float /\
  BillBreakdown.emiInterest b = 0%float /\
  b = PaymentProcessor.quote PaymentProcessor.UPI 11250 2200 "LOYAL5".
Proof.
  apply (quote_unknown_method 7 11250 2200 "LOYAL5"). right. lia.
Defined.

(** ** The renewal workflow *)

Section Renewal.
Variables (currentYear : Z) (io : Console) (v : Vehicle.t)
  (currentDate : PolicyDate.t).

(** The four ways [performRenewal] ends, with the vehicle each leaves. *)
Lemma performRenewal_cases :
  (StatusResult.expired (evaluateStatus v currentDate) = false /\
   performRenewal currentYear io v currentDate = (v, RenewalDisabled)) \/
  (StatusResult.expired (evaluateStatus v currentDate) = true /\
   (performRenewal currentYear io v currentDate
      = (Vehicle.setPolicyStatus v "OVERDUE / EXPIRED", SelectionInvalid) \/
    performRenewal currentYear io v currentDate
      = (Vehicle.setPolicyStatus v "OVERDUE / EXPIRED", PaymentCancelled) \/
    exists b m,
      performRenewal currentYear io v currentDate =
        (Vehicle.setPolicyStatus
           (Vehicle.setRenewalDueDate
              (Vehicle.setPolicyStatus v "OVERDUE / EXPIRED")
              (calculateRenewalDate (Vehicle.getRenewalDueDate v)))
           "Active",
         Renewed (Vehicle.getRenewalDueDate v)
           (calculateRenewalDate (Vehicle.getRenewalDueDate v)) b m))).
Proof.
  unfold performRenewal.
  destruct (StatusResult.expired (evaluateStatus v currentDate)) eqn:He; cbn.
  - right. split; [reflexivity |].
    rewrite (evaluateStatus_expired_label v currentDate He).
    destruct (BillAndMethod.valid _); cbn; [| now left].
    destruct (PaymentProcessor.confirmAndPay _); cbn; [| now right; left].
    right; right. eexists; eexists. reflexivity.
  - left. split; reflexivity.
Qed.

(** Which way it ends is decided by the evaluated status and by what
    the operator enters. *)
Lemma performRenewal_outcome :
  match snd (performRenewal currentYear io v currentDate) with
  | RenewalDisabled =>
      StatusResult.expired (evaluateStatus v currentDate) = false
  | SelectionInvalid =>
      StatusResult.expired (evaluateStatus v currentDate) = true /\
      (enteredChoice io < 1 \/ 6 < enteredChoice io)
  | PaymentCancelled =>
      StatusResult.expired (evaluateStatus v currentDate) = true /\
      1 <= enteredChoice io <= 6 /\
      enteredConfirm io <> "y"%char /\ enteredConfirm io <> "Y"%char
  | Renewed oldDue newDue b m =>
      StatusResult.expired (evaluateStatus v currentDate) = true /\
      1 <= enteredChoice io <= 6 /\
      (enteredConfirm io = "y"%char \/ enteredConfirm io = "Y"%char) /\
      m = enteredChoice io /\
      b = PaymentProcessor.quote m
            (InsuranceCalculator.calculatePremium currentYear v)
            (StatusResult.fine (evaluateStatus v currentDate))
            (enteredPromo io)
  end.
Proof.
  unfold performRenewal, quoteAndChoosePayment,
    PaymentProcessor.confirmAndPay.
  destruct (StatusResult.expired (evaluateStatus v currentDate)); cbn;
    [| reflexivity].
  destruct (Z.ltb_spec (enteredChoice io) 1); cbn; [split; [easy | lia] |].
  destruct (Z.gtb_spec (enteredChoice io) 6); cbn; [split; [easy | lia] |].
  destruct (Ascii.eqb_spec (enteredConfirm io) "y"%char) as [Ey | Ny]; cbn.
  - repeat split; try lia. now left.
  - destruct (Ascii.eqb_spec (enteredConfirm io) "Y"%char) as [EY | NY]; cbn.
    + repeat split; try lia. now right.
    + repeat split; try lia; assumption.
Qed.

End Renewal.

(** A renewal that fails at the payment step returns the vehicle with
    the evaluated status written into it and nothing else changed. *)
Lemma performRenewal_failure_vehicle (currentYear : Z) (io : Console)
    (v v' : Vehicle.t) (currentDate : PolicyDate.t) :
  performRenewal currentYear io v currentDate = (v', SelectionInvalid) \/
  performRenewal currentYear io v currentDate = (v', PaymentCancelled) ->
  StatusResult.expired (evaluateStatus v currentDate) = true /\
  v' = Vehicle.setPolicyStatus v "OVERDUE / EXPIRED".
Proof.
  intros H.
  destruct (performRenewal_cases currentYear io v currentDate)
    as [[_ R] | [E [R | [R | (b & m & R)]]]];
    destruct H as [H | H]; rewrite R in H; try discriminate;
    split; congruence.
Qed.

Lemma setPolicyStatus_same (v : Vehicle.t) :
  Vehicle.policy (Vehicle.setPolicyStatus v (Vehicle.getPolicyStatus v))
  = Vehicle.policy v.
Proof. destruct v as [? ? ? ? ? [? ? ?]]. reflexivity. Qed.

(** C1 (as amended).  When [performRenewal] ends on an invalid payment
    selection or on a declined payment, the registration date and the
    renewal due date of the Policy are unchanged and its status is the
    evaluated label "OVERDUE / EXPIRED", written before the payment
    step; so the Policy is left as it was whenever its status was that
    label already. *)
Theorem performRenewal_failure_policy (currentYear : Z) (io : Console)
    (v v' : Vehicle.t) (currentDate : PolicyDate.t) :
  performRenewal currentYear io v currentDate = (v', SelectionInvalid) \/
  performRenewal currentYear io v currentDate = (v', PaymentCancelled) ->
  Policy.registrationDate (Vehicle.policy v')
    = Policy.registrationDate (Vehicle.policy v) /\
  Policy.renewalDueDate (Vehicle.policy v')
    = Policy.renewalDueDate (Vehicle.policy v) /\
  Policy.status (Vehicle.policy v') = "OVERDUE / EXPIRED" /\
  (Policy.status (Vehicle.policy v) = "OVERDUE / EXPIRED" ->
   Vehicle.policy v' = Vehicle.policy v).
Proof.
  intros H.
  destruct (performRenewal_failure_vehicle currentYear io v v' currentDate H)
    as [_ E].
  subst v'. cbn. repeat split.
  intros Hs. rewrite <- Hs. apply (setPolicyStatus_same v).
Qed.

Lemma performRenewal_failure_policy_witness :
  let v := Vehicle.new "Tata" "Nexon" 2020 500000%float "Diesel"
             (PolicyDate.mk 1 1 2023) in
  let v' := fst (performRenewal 2024 (mkConsole 2 "" "n") v
                   (PolicyDate.mk 15 3 2024)) in
  Policy.registrationDate (Vehicle.policy v') = PolicyDate.mk 1 1 2023 /\
  Policy.renewalDueDate (Vehicle.policy v') = PolicyDate.mk 1 1 2024 /\
  Policy.status (Vehicle.policy v') = "OVERDUE / EXPIRED".
Proof.
  intros v v'.
  destruct (performRenewal_failure_policy 2024 (mkConsole 2 "" "n") v v'
              (PolicyDate.mk 15 3 2024)) as (H1 & H2 & H3 & _).
  - right. reflexivity.
  - repeat split; assumption.
Defined.

(** [main] writes the evaluated status into the vehicle before it calls
    [performRenewal]; a renewal that then fails leaves the Policy as
    [main] handed it over. *)
Lemma performRenewal_failure_after_status_written (currentYear : Z)
    (io : Console) (v v' : Vehicle.t) (currentDate : PolicyDate.t) :
  let userVehicle :=
    Vehicle.setPolicyStatus v
      (StatusResult.status (evaluateStatus v currentDate)) in
  performRenewal currentYear io userVehicle currentDate
    = (v', SelectionInvalid) \/
  performRenewal currentYear io userVehicle currentDate
    = (v', PaymentCancelled) ->
  Vehicle.policy v' = Vehicle.policy userVehicle.
Proof.
  intros userVehicle H.
  destruct (performRenewal_failure_vehicle currentYear io userVehicle v'
              currentDate H) as [He E].
  change (evaluateStatus userVehicle currentDate)
    with (evaluateStatus v currentDate) in He.
  subst v'. unfold userVehicle.
  rewrite (evaluateStatus_expired_label v currentDate He). reflexivity.
Qed.

(** C1 (as stated) fails: a vehicle as the constructor leaves it has
    status "New"; once its policy is overdue beyond the grace period, a
    renewal that ends on an invalid selection (choice 7) or on a
    declined payment (answer n) leaves the status "OVERDUE / EXPIRED". *)
Lemma performRenewal_failure_counterexample :
  let v := Vehicle.new "Tata" "Nexon" 2020 500000%float "Diesel"
             (PolicyDate.mk 1 1 2023) in
  let today := PolicyDate.mk 15 3 2024 in
  let invalid := performRenewal 2024 (mkConsole 7 "" "y") v today in
  let declined := performRenewal 2024 (mkConsole 2 "" "n") v today in
  snd invalid = SelectionInvalid /\
  snd declined = PaymentCancelled /\
  Policy.status (Vehicle.policy v) = "New" /\
  Policy.status (Vehicle.policy (fst invalid)) = "OVERDUE / EXPIRED" /\
  Policy.status (Vehicle.policy (fst declined)) = "OVERDUE / EXPIRED" /\
  Vehicle.policy (fst invalid) <> Vehicle.policy v /\
  Vehicle.policy (fst declined) <> Vehicle.policy v.
Proof.
  cbv zeta. repeat split; try reflexivity; vm_compute; discriminate.
Qed.

(** C7.  The code breaks the invariant at the largest year an [int]
    holds.  A vehicle registered on 01/01/2147483647, a date that
    [getValidDate] accepts, is constructed with the due date
    01/01/-2147483648 and not with the year 2147483648: [year += 1]
    overflows.  The same happens when a renewal commits: a policy due
    on 01/01/2147483647 and examined on 31/12/2147483647 is expired,
    and the renewal leaves it "Active" with the due date
    01/01/-2147483648. *)
Theorem renewal_due_date_year_overflow :
  let reg := PolicyDate.mk 1 1 2147483647 in
  let v := Vehicle.new "Tata" "Nexon" 2020 500000%float "Diesel" reg in
  let w := Vehicle.new "Tata" "Nexon" 2020 500000%float "Diesel"
             (PolicyDate.mk 1 1 2147483646) in
  let today := PolicyDate.mk 31 12 2147483647 in
  let w' := fst (performRenewal 2024 (mkConsole 2 "" "y") w today) in
  getValidDate_ok reg = true /\
  Vehicle.getRenewalDueDate v = PolicyDate.mk 1 1 (- 2147483648) /\
  Vehicle.getRenewalDueDate v <> PolicyDate.mk 1 1 (2147483647 + 1) /\
  getValidDate_ok today = true /\
  Vehicle.getRenewalDueDate w = PolicyDate.mk 1 1 2147483647 /\
  StatusResult.expired (evaluateStatus w today) = true /\
  Vehicle.getPolicyStatus w' = "Active" /\
  Vehicle.getRenewalDueDate w' = PolicyDate.mk 1 1 (- 2147483648) /\
  Vehicle.getRenewalDueDate w' <> PolicyDate.mk 1 1 (2147483647 + 1).
Proof.
  cbv zeta. repeat split; try reflexivity; vm_compute; discriminate.
Qed.

(** X23.  While the year is below the largest [int], the renewal due
    date is the registration date plus one calendar year when the
    Vehicle is constructed, and a renewal that commits replaces the due
    date by the prior due date plus one calendar year: same day, same
    month, year + 1. *)
Theorem renewal_due_date_plus_one_year :
  (forall (m mod_ : string) (y : Z) (val : float) (ft : string)
          (regDate : PolicyDate.t),
     in_int (PolicyDate.year regDate) ->
     PolicyDate.year regDate < INT_MAX ->
     let v := Vehicle.new m mod_ y val ft regDate in
     Vehicle.getRegistrationDate v = regDate /\
     Vehicle.getRenewalDueDate v =
       PolicyDate.mk (PolicyDate.day regDate) (PolicyDate.month regDate)
         (PolicyDate.year regDate + 1)) /\
  (forall (currentYear : Z) (io : Console) (v v' : Vehicle.t)
          (currentDate oldDue newDue : PolicyDate.t) (b : BillBreakdown.t)
          (m : PaymentProcessor.Method),
     performRenewal currentYear io v currentDate
       = (v', Renewed oldDue newDue b m) ->
     in_int (PolicyDate.year oldDue) ->
     PolicyDate.year oldDue < INT_MAX ->
     oldDue = Vehicle.getRenewalDueDate v /\
     newDue = Vehicle.getRenewalDueDate v' /\
     Vehicle.getRenewalDueDate v' =
       PolicyDate.mk (PolicyDate.day oldDue) (PolicyDate.month oldDue)
         (PolicyDate.year oldDue + 1) /\
     Vehicle.getPolicyStatus v' = "Active").
Proof.
  assert (Y : forall d : PolicyDate.t,
            in_int (PolicyDate.year d) -> PolicyDate.year d < INT_MAX ->
            calculateRenewalDate d
            = PolicyDate.mk (PolicyDate.day d) (PolicyDate.month d)
                (PolicyDate.year d + 1)).
  { intros d Hi Hm. unfold calculateRenewalDate.
    rewrite int_add_exact; [reflexivity |].
    unfold in_int, INT_MIN, INT_MAX in *. lia. }
  split.
  - intros m mod_ y val ft regDate Hi Hm v.
    split; [reflexivity |]. apply (Y regDate Hi Hm).
  - intros currentYear io v v' currentDate oldDue newDue b m H Hi Hm.
    destruct (performRenewal_cases currentYear io v currentDate)
      as [[_ R] | [_ [R | [R | (b' & m' & R)]]]];
      rewrite R in H; try discriminate.
    injection H as <- <- <- _ _. repeat split.
    apply (Y _ Hi Hm).
Qed.

Lemma renewal_due_date_plus_one_year_witness :
  let v := Vehicle.new "Tata" "Nexon" 2020 500000%float "Diesel"
             (PolicyDate.mk 29 2 2020) in
  let v' := fst (performRenewal 2024 (mkConsole 5 "loyal5" "Y") v
                   (PolicyDate.mk 15 3 2024)) in
  Vehicle.getRenewalDueDate v = PolicyDate.mk 29 2 2021 /\
  Vehicle.getRenewalDueDate v' = PolicyDate.mk 29 2 2022 /\
  Vehicle.getPolicyStatus v' = "Active".
Proof.
  intros v v'.
  destruct renewal_due_date_plus_one_year as [Hnew Hrun].
  assert (B : forall y, 0 <= y <= 9999 -> in_int y /\ y < INT_MAX)
    by (unfold in_int, INT_MIN, INT_MAX; lia).
  split; [apply (Hnew "Tata" "Nexon" 2020 500000%float "Diesel");
          apply (B 2020); lia |].
  destruct (Hrun 2024 (mkConsole 5 "loyal5" "Y") v v'
              (PolicyDate.mk 15 3 2024)
              (PolicyDate.mk 29 2 2021) (PolicyDate.mk 29 2 2022)
              (PaymentProcessor.quote 5
                 (InsuranceCalculator.calculatePremium 2024 v)
                 (StatusResult.fine
                    (evaluateStatus v (PolicyDate.mk 15 3 2024)))
                 "loyal5") 5) as (_ & _ & Hd & Hs).
  - reflexivity.
  - apply (B 2021); lia.
  - apply (B 2021); lia.
  - split; assumption.
Defined.

(** C10.  Whatever way [performRenewal] ends (renewal disabled, invalid
    selection, payment declined, renewal committed), the vehicle's make,
    model, manufacture year, original value and fuel type and the
    Policy's registration date are as they were: only the renewal due
    date and the status can differ. *)
Theorem performRenewal_frame (currentYear : Z) (io : Console)
    (v : Vehicle.t) (currentDate : PolicyDate.t) :
  let v' := fst (performRenewal currentYear io v currentDate) in
  Vehicle.make v' = Vehicle.make v /\
  Vehicle.model v' = Vehicle.model v /\
  Vehicle.year v' = Vehicle.year v /\
  Vehicle.originalValue v' = Vehicle.originalValue v /\
  Vehicle.fuelType v' = Vehicle.fuelType v /\
  Policy.registrationDate (Vehicle.policy v')
    = Policy.registrationDate (Vehicle.policy v).
Proof.
  destruct (performRenewal_cases currentYear io v currentDate)
    as [[_ R] | [_ [R | [R | (b & m & R)]]]];
    rewrite R; cbn; repeat split.
Qed.

(** ** Dates *)

Lemma dateToTimeT_dayNumber (date : PolicyDate.t) :
  dateToTimeT date = dayNumber date * 86400 + 43200.
Proof. reflexivity. Qed.

(** The day difference is the difference of the day numbers. *)
Lemma daysBetween_dayNumber (d1 d2 : PolicyDate.t) :
  daysBetween d1 d2 = dayNumber d1 - dayNumber d2.
Proof.
  unfold daysBetween, llround_div. rewrite !dateToTimeT_dayNumber.
  change (60 * 60 * 24) with 86400.
  replace (dayNumber d1 * 86400 + 43200 - (dayNumber d2 * 86400 + 43200))
    with ((dayNumber d1 - dayNumber d2) * 86400) by ring.
  set (k := dayNumber d1 - dayNumber d2).
  destruct (Z.lt_trichotomy k 0) as [N | [E | P]].
  - assert (S : Z.sgn (k * 86400) = - 1) by (apply Z.sgn_neg; lia).
    rewrite S, Z.abs_neq by lia.
    assert ((2 * - (k * 86400) + 86400) / (2 * 86400) = - k).
    { symmetry. apply (Z.div_unique _ _ _ 86400); lia. }
    lia.
  - rewrite E. reflexivity.
  - assert (S : Z.sgn (k * 86400) = 1) by (apply Z.sgn_pos; lia).
    rewrite S, Z.abs_eq by lia.
    assert ((2 * (k * 86400) + 86400) / (2 * 86400) = k).
    { symmetry. apply (Z.div_unique _ _ _ 86400); lia. }
    lia.
Qed.

(** X1.  [daysBetween] is a signed distance: a date is 0 days from
    itself, swapping the arguments changes the sign, and the differences
    over an intermediate date add up. *)
Theorem daysBetween_algebra (a b c : PolicyDate.t) :
  daysBetween a a = 0 /\
  daysBetween a b = - daysBetween b a /\
  daysBetween a c = daysBetween a b + daysBetween b c.
Proof. rewrite !daysBetween_dayNumber. lia. Qed.

Lemma days_from_civil_next_year (y m d : Z) :
  1 <= m <= 12 ->
  days_from_civil (y + 1) m d - days_from_civil y m d = 365 \/
  days_from_civil (y + 1) m d - days_from_civil y m d = 366.
Proof.
  intros Hm. unfold days_from_civil.
  destruct (m <=? 2); Z.to_euclidean_division_equations; lia.
Qed.

Lemma dayNumber_next_year (d : PolicyDate.t) :
  in_int (PolicyDate.year d + 1) ->
  dayNumber (calculateRenewalDate d) - dayNumber d = 365 \/
  dayNumber (calculateRenewalDate d) - dayNumber d = 366.
Proof.
  intros Hy. unfold dayNumber, calculateRenewalDate;
    cbn [PolicyDate.year PolicyDate.month PolicyDate.day].
  rewrite (int_add_exact _ _ Hy).
  set (m := (PolicyDate.month d - 1) mod 12 + 1).
  assert (Hm : 1 <= m <= 12).
  { unfold m. pose proof (Z.mod_pos_bound (PolicyDate.month d - 1) 12). lia. }
  replace (PolicyDate.year d + 1 - 1900 + 1900 + (PolicyDate.month d - 1) / 12)
    with (PolicyDate.year d - 1900 + 1900 + (PolicyDate.month d - 1) / 12 + 1)
    by ring.
  apply days_from_civil_next_year, Hm.
Qed.

Lemma getValidDate_ok_spec (date : PolicyDate.t) :
  getValidDate_ok date = true <->
  1 <= PolicyDate.month date <= 12 /\ 1 <= PolicyDate.day date <= 31 /\
  1900 < PolicyDate.year date.
Proof.
  unfold getValidDate_ok. rewrite !andb_true_iff.
  rewrite !Z.geb_le, !Z.leb_le, Z.gtb_lt. lia.
Qed.

(** The dates that [getValidDate] accepts have a year that 1 can be
    added to, up to the largest [int] but one. *)
Lemma getValidDate_ok_next_year (d : PolicyDate.t) :
  getValidDate_ok d = true -> PolicyDate.year d < INT_MAX ->
  in_int (PolicyDate.year d + 1).
Proof.
  intros Hok Hy. apply getValidDate_ok_spec in Hok.
  unfold in_int, INT_MIN, INT_MAX in *. lia.
Qed.

(** The rounding absorbs anything short of half a day. *)
Lemma llround_div_near (k r : Z) :
  - 43200 < r < 43200 -> llround_div (86400 * k + r) 86400 = k.
Proof.
  intros Hr. unfold llround_div.
  destruct (Z.lt_trichotomy k 0) as [N | [-> | P]].
  - assert (S : Z.sgn (86400 * k + r) = - 1) by (apply Z.sgn_neg; lia).
    rewrite S, Z.abs_neq by lia.
    assert ((2 * - (86400 * k + r) + 86400) / (2 * 86400) = - k).
    { symmetry. apply (Z.div_unique _ _ _ (86400 - 2 * r)); lia. }
    lia.
  - rewrite Z.mul_0_r, Z.add_0_l.
    assert ((2 * Z.abs r + 86400) / (2 * 86400) = 0)
      by (apply Z.div_small; lia).
    nia.
  - assert (S : Z.sgn (86400 * k + r) = 1) by (apply Z.sgn_pos; lia).
    rewrite S, Z.abs_eq by lia.
    assert ((2 * (86400 * k + r) + 86400) / (2 * 86400) = k).
    { symmetry. apply (Z.div_unique _ _ _ (86400 + 2 * r)); lia. }
    lia.
Qed.

(** In a zone whose offset at the two noons differs by less than twelve
    hours, the day difference is the difference of the day numbers. *)
Lemma daysBetween_in_dayNumber (utcOffset : PolicyDate.t -> Z)
    (d1 d2 : PolicyDate.t) :
  - 43200 < utcOffset d1 - utcOffset d2 < 43200 ->
  daysBetween_in utcOffset d1 d2 = dayNumber d1 - dayNumber d2.
Proof.
  intros H. unfold daysBetween_in, dateToTimeT_in.
  rewrite !dateToTimeT_dayNumber. change (60 * 60 * 24) with 86400.
  replace (dayNumber d1 * 86400 + 43200 - utcOffset d1
           - (dayNumber d2 * 86400 + 43200 - utcOffset d2))
    with (86400 * (dayNumber d1 - dayNumber d2)
          + - (utcOffset d1 - utcOffset d2)) by ring.
  apply llround_div_near. lia.
Qed.

(** X2.  For a date that [getValidDate] accepts, with a year up to
    5000000, and in any time zone whose offset from UTC at the two
    noons differs by less than twelve hours, the date
    [calculateRenewalDate] returns is 365 or 366 days after the date it
    is given, as [daysBetween] counts them (29 February included: its
    next year's date is the day after 28 February). *)
Theorem calculateRenewalDate_days (utcOffset : PolicyDate.t -> Z)
    (d : PolicyDate.t) :
  getValidDate_ok d = true -> PolicyDate.year d <= 5000000 ->
  - 43200 < utcOffset (calculateRenewalDate d) - utcOffset d < 43200 ->
  daysBetween_in utcOffset (calculateRenewalDate d) d = 365 \/
  daysBetween_in utcOffset (calculateRenewalDate d) d = 366.
Proof.
  intros Hok Hy Hz. rewrite (daysBetween_in_dayNumber _ _ _ Hz).
  apply dayNumber_next_year, getValidDate_ok_next_year; [exact Hok |].
  unfold INT_MAX. lia.
Qed.

Lemma calculateRenewalDate_days_witness :
  let d := PolicyDate.mk 29 2 2024 in
  let utcOffset (date : PolicyDate.t) :=
    if PolicyDate.year date <=? 2024 then 3600 else 7200 in
  getValidDate_ok d = true /\
  PolicyDate.year d <= 5000000 /\
  - 43200 < utcOffset (calculateRenewalDate d) - utcOffset d < 43200 /\
  daysBetween_in utcOffset (calculateRenewalDate d) d = 366 /\
  (daysBetween_in utcOffset (calculateRenewalDate d) d = 365 \/
   daysBetween_in utcOffset (calculateRenewalDate d) d = 366).
Proof.
  intros d utcOffset.
  assert (Hy : PolicyDate.year d <= 5000000) by (cbn; lia).
  assert (Hz : - 43200 < utcOffset (calculateRenewalDate d) - utcOffset d
               < 43200) by (cbn; lia).
  split; [reflexivity |]. split; [exact Hy |]. split; [exact Hz |].
  split; [reflexivity |].
  apply (calculateRenewalDate_days utcOffset d eq_refl Hy Hz).
Defined.

(** The dates that [getValidDate] accepts, up to the year 5000000, lie
    within [int] many days of each other. *)
Lemma dayNumber_bounds (d : PolicyDate.t) :
  getValidDate_ok d = true -> PolicyDate.year d <= 5000000 ->
  - 25202 <= dayNumber d <= 1825493337.
Proof.
  intros Hok Hy. apply getValidDate_ok_spec in Hok.
  destruct d as [dd mm yy].
  cbn [PolicyDate.year PolicyDate.month PolicyDate.day] in *.
  unfold dayNumber, days_from_civil.
  cbn [PolicyDate.year PolicyDate.month PolicyDate.day].
  replace ((mm - 1) / 12) with 0 by (symmetry; apply Z.div_small; lia).
  replace ((mm - 1) mod 12) with (mm - 1) by (symmetry; apply Z.mod_small; lia).
  replace (mm - 1 + 1) with mm by ring.
  destruct (Z.leb_spec mm 2); Z.to_euclidean_division_equations; lia.
Qed.

(** *** Dates as text *)

Lemma print_int_parse (z : Z) :
  NilZero.int_of_string (print_int z) = Some (Z.to_int z).
Proof.
  unfold print_int. apply NilZero.isi.
  - destruct z; cbn; try discriminate.
    intros [= H]. exact (Unsigned.to_uint_nonnil _ H).
  - destruct z; cbn; try discriminate.
    intros [= H]. exact (Unsigned.to_uint_nonnil _ H).
Qed.

Lemma print_int_inj (x y : Z) : print_int x = print_int y -> x = y.
Proof.
  intros H. apply (f_equal NilZero.int_of_string) in H.
  rewrite !print_int_parse in H. injection H as H.
  apply (f_equal Z.of_int) in H. now rewrite !DecimalZ.of_to in H.
Qed.

(** A two-character field holds the numbers 0..99 and gives them back. *)
Lemma setw2_fill0_field (x : Z) :
  0 <= x <= 99 ->
  String.length (setw2_fill0 (print_int x)) = 2%nat /\
  option_map Z.of_int (NilZero.int_of_string (setw2_fill0 (print_int x)))
  = Some x.
Proof.
  intros H. remember (Z.to_nat x) as n eqn:En.
  assert (Ex : x = Z.of_nat n) by lia.
  assert (Hn : (n < 100)%nat) by lia.
  subst x. clear En H.
  do 100 (destruct n as [| n]; [split; reflexivity |]).
  lia.
Qed.

Lemma append_inj_length (a a' b b' : string) :
  String.length a = String.length a' -> a ++ b = a' ++ b' ->
  a = a' /\ b = b'.
Proof.
  revert a'. induction a as [| c a IH]; intros [| c' a'] L E;
    try discriminate.
  - split; [reflexivity | exact E].
  - cbn in L, E. injection E as -> E. injection L as L.
    destruct (IH a' L E) as [-> ->]. split; reflexivity.
Qed.

(** X3.  For a date that [getValidDate] accepts, [dateToString] gives
    two characters for the day, a slash, two characters for the month,
    a slash and the decimal digits of the year; read back as numbers,
    the three fields are the day, the month and the year. *)
Theorem dateToString_layout (date : PolicyDate.t) :
  getValidDate_ok date = true ->
  exists dd mm,
    String.length dd = 2%nat /\ String.length mm = 2%nat /\
    dateToString date
      = dd ++ "/" ++ mm ++ "/" ++ print_int (PolicyDate.year date) /\
    option_map Z.of_int (NilZero.int_of_string dd)
      = Some (PolicyDate.day date) /\
    option_map Z.of_int (NilZero.int_of_string mm)
      = Some (PolicyDate.month date) /\
    option_map Z.of_int
      (NilZero.int_of_string (print_int (PolicyDate.year date)))
    = Some (PolicyDate.year date).
Proof.
  intros Hok. apply getValidDate_ok_spec in Hok.
  destruct (setw2_fill0_field (PolicyDate.day date)) as [Ld Pd]; [lia |].
  destruct (setw2_fill0_field (PolicyDate.month date)) as [Lm Pm]; [lia |].
  exists (setw2_fill0 (print_int (PolicyDate.day date))),
         (setw2_fill0 (print_int (PolicyDate.month date))).
  repeat split; try assumption.
  rewrite print_int_parse. cbn. now rewrite DecimalZ.of_to.
Qed.

Lemma dateToString_layout_witness :
  getValidDate_ok (PolicyDate.mk 5 3 2024) = true /\
  dateToString (PolicyDate.mk 5 3 2024) = "05/03/2024" /\
  exists dd mm,
    String.length dd = 2%nat /\ String.length mm = 2%nat /\
    dateToString (PolicyDate.mk 5 3 2024)
      = dd ++ "/" ++ mm ++ "/" ++ print_int 2024 /\
    option_map Z.of_int (NilZero.int_of_string dd) = Some 5 /\
    option_map Z.of_int (NilZero.int_of_string mm) = Some 3 /\
    option_map Z.of_int (NilZero.int_of_string (print_int 2024))
    = Some 2024.
Proof.
  split; [reflexivity |]. split; [reflexivity |].
  apply (dateToString_layout (PolicyDate.mk 5 3 2024)). reflexivity.
Defined.

(** X4.  Two dates that [getValidDate] accepts and that [dateToString]
    writes the same way are the same date. *)
Theorem dateToString_injective (d1 d2 : PolicyDate.t) :
  getValidDate_ok d1 = true -> getValidDate_ok d2 = true ->
  dateToString d1 = dateToString d2 -> d1 = d2.
Proof.
  intros H1 H2 E.
  apply getValidDate_ok_spec in H1, H2.
  destruct (setw2_fill0_field (PolicyDate.day d1)) as [Ld1 Pd1]; [lia |].
  destruct (setw2_fill0_field (PolicyDate.day d2)) as [Ld2 Pd2]; [lia |].
  destruct (setw2_fill0_field (PolicyDate.month d1)) as [Lm1 Pm1]; [lia |].
  destruct (setw2_fill0_field (PolicyDate.month d2)) as [Lm2 Pm2]; [lia |].
  unfold dateToString in E.
  apply append_inj_length in E; [| congruence]. destruct E as [Ed E].
  cbn [append] in E. injection E as E.
  apply append_inj_length in E; [| congruence]. destruct E as [Em E].
  cbn [append] in E. injection E as E.
  apply print_int_inj in E.
  rewrite Ed in Pd1. rewrite Em in Pm1.
  assert (PolicyDate.day d1 = PolicyDate.day d2) by congruence.
  assert (PolicyDate.month d1 = PolicyDate.month d2) by congruence.
  destruct d1, d2; cbn in *; congruence.
Qed.

Lemma dateToString_injective_witness :
  getValidDate_ok (PolicyDate.mk 29 2 2024) = true /\
  dateToString (PolicyDate.mk 29 2 2024)
    = dateToString (PolicyDate.mk (28 + 1) 2 (2023 + 1)) /\
  PolicyDate.mk 29 2 2024 = PolicyDate.mk (28 + 1) 2 (2023 + 1).
Proof.
  split; [reflexivity |]. split; [reflexivity |].
  apply (dateToString_injective (PolicyDate.mk 29 2 2024)
           (PolicyDate.mk (28 + 1) 2 (2023 + 1)));
    reflexivity.
Defined.

(** ** The age factor

    A product of at least one rounds to at least one, so that from
    age 34 on [1 - age * 0.03] is not above 0; the ages below 34 are
    computed. *)

(** Lower bounds through the shifts. *)
Lemma shr_1_lower (mrs : shr_record) :
  0 <= shr_m mrs -> shr_m mrs <= 2 * shr_m (shr_1 mrs) + 1.
Proof.
  destruct mrs as [m r s]. cbn [shr_m]. intros Hm.
  destruct m as [| [p | p |] | p]; cbn [shr_1 shr_m]; lia.
Qed.

Lemma iter_shr_1_lower (k : positive) : forall mrs : shr_record,
  0 <= shr_m mrs ->
  shr_m mrs < (shr_m (iter_pos shr_1 k mrs) + 1) * 2 ^ Zpos k.
Proof.
  induction k as [k IH | k IH |]; intros mrs Hm; cbn [iter_pos].
  - pose proof (shr_1_lower mrs Hm) as A.
    destruct (shr_1_bound mrs Hm) as [A1 _].
    pose proof (IH _ A1) as B.
    destruct (iter_shr_1_bound k _ A1) as [B1 _].
    pose proof (IH _ B1) as C.
    replace (Zpos k~1) with (Zpos k + Zpos k + 1) by lia.
    rewrite !Z.pow_add_r, Z.pow_1_r by lia.
    pose proof (pow2_pos (Zpos k)). nia.
  - pose proof (IH _ Hm) as B.
    destruct (iter_shr_1_bound k _ Hm) as [B1 _].
    pose proof (IH _ B1) as C.
    replace (Zpos k~0) with (Zpos k + Zpos k) by lia.
    rewrite !Z.pow_add_r by lia.
    pose proof (pow2_pos (Zpos k)). nia.
  - rewrite Z.pow_1_r. pose proof (shr_1_lower mrs Hm). lia.
Qed.

Lemma shr_fexp_lower (m e : Z) (l : location) :
  0 <= m ->
  let r := shr_fexp prec emax m e l in
  m < (shr_m (fst r) + 1) * 2 ^ (snd r - e).
Proof.
  intros Hm. unfold shr_fexp, shr.
  destruct (fexp prec emax (Zdigits2 m + e) - e) as [| p | p] eqn:D;
    cbn [fst snd]; rewrite ?shr_record_of_loc_m.
  - rewrite Z.sub_diag. change (2 ^ 0) with 1. lia.
  - pose proof (iter_shr_1_lower p (shr_record_of_loc m l)) as B.
    rewrite shr_record_of_loc_m in B.
    replace (e + Zpos p - e) with (Zpos p) by lia. auto.
  - rewrite Z.sub_diag. change (2 ^ 0) with 1. lia.
Qed.

Lemma Zdigits2_ge (z d : Z) : 0 <= d -> 2 ^ d <= z -> d < Zdigits2 z.
Proof.
  intros Hd Hz. pose proof (pow2_pos d Hd).
  destruct z as [| p | p]; cbn [Zdigits2]; try lia.
  pose proof (digits2_pos_bounds p) as [_ Bu].
  destruct (Z.lt_ge_cases d (Zpos (digits2_pos p))) as [? | G];
    [assumption | exfalso].
  assert (2 ^ Zpos (digits2_pos p) <= 2 ^ d) by (apply Z.pow_le_mono_r; lia).
  lia.
Qed.

(** A value of at least one rounds to at least one: the result is an
    infinity or a finite [b * 2^e2] with [b >= 2^(-e2)]. *)
Lemma binary_round_aux_at_least_one (sx : bool) (m : positive) (e : Z)
    (l : location) :
  1 <= Zpos (digits2_pos m) + e ->
  match binary_round_aux prec emax sx (Zpos m) e l with
  | S754_finite _ b e2 => 0 <= e2 \/ 2 ^ (- e2) <= Zpos b
  | S754_infinity _ => True
  | _ => False
  end.
Proof.
  intros HD. unfold binary_round_aux.
  destruct (shr_fexp_bound (Zpos m) e l) as (E1 & P1 & B1); [lia |].
  pose proof (shr_fexp_lower (Zpos m) e l) as L1. cbv zeta in L1.
  destruct (shr_fexp prec emax (Zpos m) e l) as [mrs' e1]. cbn [fst snd] in *.
  cbn [Zdigits2] in E1. rewrite fexp_eq in E1.
  set (d := Zpos (digits2_pos m)) in *.
  pose proof (digits2_pos_bounds m) as [Bl Bu]. fold d in Bl, Bu.
  assert (Hd : 0 < d) by (unfold d; lia).
  specialize (L1 ltac:(lia)).
  pose proof (round_nearest_even_bound (shr_m mrs') (loc_of_shr_record mrs'))
    as Hr.
  set (a := shr_m mrs') in *.
  set (mr := round_nearest_even _ _) in *.
  destruct (shr_fexp_bound mr e1 loc_Exact) as (E2 & P2 & B2); [lia |].
  pose proof (shr_fexp_lower mr e1 loc_Exact) as L2. cbv zeta in L2.
  destruct (shr_fexp prec emax mr e1 loc_Exact) as [mrs'' e2].
  cbn [fst snd] in *. rewrite fexp_eq in E2.
  specialize (L2 ltac:(lia)).
  set (b := shr_m mrs'') in *.
  (* the first shift keeps the leading bit *)
  assert (Hs1 : 0 <= e1 - e <= d - 1) by lia.
  assert (Ha : 2 ^ (d - 1 - (e1 - e)) <= a).
  { pose proof (pow2_split (d - 1) (e1 - e) ltac:(lia)) as S.
    pose proof (pow2_pos (e1 - e)). pose proof (pow2_pos (d - 1 - (e1 - e))).
    nia. }
  assert (Hda : d - (e1 - e) <= Zdigits2 mr).
  { assert (d - 1 - (e1 - e) < Zdigits2 mr); [| lia].
    apply Zdigits2_ge; lia. }
  assert (Hmr : 2 ^ (Zdigits2 mr - 1) <= mr).
  { destruct mr as [| p | p]; cbn [Zdigits2] in *; try lia.
    apply digits2_pos_bounds. }
  assert (Hs2 : 0 <= e2 - e1 <= Zdigits2 mr - 1) by lia.
  assert (Hb : 2 ^ (Zdigits2 mr - 1 - (e2 - e1)) <= b).
  { pose proof (pow2_split (Zdigits2 mr - 1) (e2 - e1) ltac:(lia)) as S.
    pose proof (pow2_pos (e2 - e1)).
    pose proof (pow2_pos (Zdigits2 mr - 1 - (e2 - e1))).
    nia. }
  assert (Hpos : 0 < b).
  { pose proof (pow2_pos (Zdigits2 mr - 1 - (e2 - e1))). lia. }
  destruct b as [| p | p] eqn:Eb; try lia.
  destruct (e2 <=? emax - prec); [| exact I].
  destruct (Z.le_gt_cases 0 e2) as [? | Hneg]; [now left | right].
  eapply Z.le_trans; [| exact Hb].
  apply Z.pow_le_mono_r; lia.
Qed.

Lemma SFmul_003_at_least_one (age : Z) :
  34 <= age < 2 ^ 53 ->
  match SF64mul (SFint age) (Prim2SF 0.03) with
  | S754_finite false b e2 => 0 <= e2 \/ 2 ^ (- e2) <= Zpos b
  | S754_infinity false => True
  | _ => False
  end.
Proof.
  intros H.
  destruct (SFint_canonical age) as (c & k & E & Hc & Hk & Hv); [lia |].
  rewrite E.
  change (Prim2SF 0.03) with (S754_finite false 8646911284551352 (- 58)).
  unfold SF64mul, SFmul. cbn [xorb].
  pose proof (binary_round_aux_signed false (Zpos (c * 8646911284551352))
                (- k + - 58) loc_Exact ltac:(lia)) as Sg.
  pose proof (binary_round_aux_at_least_one false (c * 8646911284551352)
                (- k + - 58) loc_Exact) as L.
  assert (D : 1 <= Zpos (digits2_pos (c * 8646911284551352)) + (- k + - 58)).
  { assert (58 + k < Zdigits2 (Zpos (c * 8646911284551352)));
      [| cbn [Zdigits2] in *; lia].
    apply Zdigits2_ge; [lia |].
    rewrite Pos2Z.inj_mul, Hv, Z.pow_add_r by lia.
    change (2 ^ 58) with 288230376151711744.
    pose proof (pow2_pos k). nia. }
  specialize (L D).
  destruct (binary_round_aux prec emax false _ _ _) as [s | s | | s b e2];
    cbn in Sg; try contradiction; subst s; exact L.
Qed.

Lemma align_one_le (b : positive) (e2 : Z) :
  0 <= e2 \/ 2 ^ (- e2) <= Zpos b ->
  4503599627370496 * 2 ^ (- 52 - Z.min (- 52) e2)
  <= Zpos b * 2 ^ (e2 - Z.min (- 52) e2).
Proof.
  intros H. change 4503599627370496 with (2 ^ 52).
  destruct (Z.le_gt_cases e2 (- 52)) as [L | G].
  - rewrite Z.min_r by lia. destruct H as [H | H]; [lia |].
    rewrite Z.sub_diag, <- Z.pow_add_r by lia.
    replace (52 + (- 52 - e2)) with (- e2) by lia.
    change (2 ^ 0) with 1. lia.
  - rewrite Z.min_l by lia. rewrite Z.sub_diag.
    change (2 ^ 0) with 1. rewrite Z.mul_1_r.
    replace (e2 - - 52) with (e2 + 52) by lia.
    destruct (Z.le_gt_cases 0 e2) as [P | N].
    + assert (2 ^ 52 <= 2 ^ (e2 + 52)) by (apply Z.pow_le_mono_r; lia). nia.
    + destruct H as [H | H]; [lia |].
      pose proof (pow2_split 52 (- e2) ltac:(lia)) as S.
      replace (52 - - e2) with (e2 + 52) in S by lia.
      rewrite S. pose proof (pow2_pos (e2 + 52)). nia.
Qed.

Lemma SFsub_one_not_above (t : spec_float) :
  match t with
  | S754_finite false b e2 => 0 <= e2 \/ 2 ^ (- e2) <= Zpos b
  | S754_infinity false => True
  | _ => False
  end ->
  SFltb (Prim2SF 0.7) (SF64sub (Prim2SF 1) t) = false.
Proof.
  change (Prim2SF 1) with (S754_finite false 4503599627370496 (- 52)).
  change (Prim2SF 0.7) with (S754_finite false 6305039478318694 (- 53)).
  destruct t as [s | [] | | [] b e2]; try contradiction; intros H;
    [reflexivity |].
  unfold SF64sub, SFsub. cbn [cond_Zopp].
  set (ez := Z.min (- 52) e2).
  destruct (shl_align_le 4503599627370496 (- 52) ez) as [F1 _];
    [unfold ez; lia |].
  destruct (shl_align_le b e2 ez) as [F2 _]; [unfold ez; lia |].
  set (m1 := fst (shl_align 4503599627370496 (- 52) ez)) in *.
  set (m2 := fst (shl_align b e2 ez)) in *.
  assert (Hle : Zpos m1 <= Zpos m2)
    by (rewrite F1, F2; apply align_one_le, H).
  unfold binary_normalize.
  destruct (Zpos m1 - Zpos m2) as [| p | p] eqn:D; [reflexivity | lia |].
  pose proof (binary_round_signed true p ez) as B.
  destruct (binary_round prec emax true p ez) as [s | s | | s m e];
    cbn in B; try contradiction; subst s; reflexivity.
Qed.

Lemma getAgeFactor_old (age : Z) :
  10 <= age < 2 ^ 53 ->
  std_max 0.7 (1 - int_to_double age * 0.03)%float = 0.7%float.
Proof.
  intros H. destruct (Z.lt_ge_cases age 34) as [Small | Big].
  - remember (Z.to_nat (age - 10)) as n eqn:En.
    assert (Ea : age = 10 + Z.of_nat n) by lia.
    assert (Hn : (n < 24)%nat) by lia.
    subst age. clear En H Small.
    do 24 (destruct n as [| n]; [vm_compute; reflexivity |]).
    lia.
  - unfold std_max. rewrite ltb_spec, sub_spec, mul_spec.
    rewrite int_to_double_spec by (change (2 ^ 63) with 9223372036854775808;
                                   change (2 ^ 53) with 9007199254740992 in H;
                                   lia).
    rewrite SFsub_one_not_above; [reflexivity |].
    pose proof (SFmul_003_at_least_one age ltac:(lia)) as L.
    destruct (SF64mul (SFint age) (Prim2SF 0.03)) as [s | [] | | [] b e2];
      try contradiction; exact L.
Qed.

(** X5.  The age factor by age [max(0, currentYear - year)], for years
    whose difference [currentYear - year] is an [int]: 1 for a vehicle
    of this year or a later one, [1 - age * 0.03] (strictly between 0.7
    and 1) for ages 1 to 9, and 0.7 from age 10 on; it is never below
    0.7 nor above 1. *)
Theorem getAgeFactor_schedule (currentYear year : Z) :
  in_int currentYear -> in_int year -> in_int (currentYear - year) ->
  let age := Z.max 0 (currentYear - year) in
  let ageFactor := InsuranceCalculator.getAgeFactor currentYear year in
  (age = 0 -> ageFactor = 1%float) /\
  (1 <= age <= 9 ->
   ageFactor = (1 - int_to_double age * 0.03)%float /\
   (0.7 <? ageFactor)%float = true /\ (ageFactor <? 1)%float = true) /\
  (10 <= age -> ageFactor = 0.7%float) /\
  (0.7 <=? ageFactor)%float = true /\ (ageFactor <=? 1)%float = true.
Proof.
  intros Hc Hy Hd age ageFactor.
  assert (E : ageFactor = std_max 0.7 (1 - int_to_double age * 0.03)%float).
  { unfold ageFactor, InsuranceCalculator.getAgeFactor.
    rewrite (int_sub_exact _ _ Hd). reflexivity. }
  unfold in_int, INT_MIN, INT_MAX in Hc, Hy.
  assert (Ha : 0 <= age < 2 ^ 53).
  { unfold age. change (2 ^ 53) with 9007199254740992.
    change (2 ^ 31) with 2147483648 in *. lia. }
  assert (Young : age <= 9 ->
            (if age =? 0 then ageFactor = 1%float
             else ageFactor = (1 - int_to_double age * 0.03)%float /\
                  (0.7 <? ageFactor)%float = true /\
                  (ageFactor <? 1)%float = true) /\
            (0.7 <=? ageFactor)%float = true /\
            (ageFactor <=? 1)%float = true).
  { intros Hle. rewrite E. clear E.
    remember (Z.to_nat age) as n eqn:En.
    assert (Ea : age = Z.of_nat n) by lia.
    assert (Hn : (n < 10)%nat) by lia.
    rewrite Ea. clear - Hn.
    do 10 (destruct n as [| n]; [vm_compute; repeat split; reflexivity |]).
    lia. }
  assert (Old : 10 <= age -> ageFactor = 0.7%float).
  { intros H. rewrite E. apply getAgeFactor_old. lia. }
  split; [| split; [| split]].
  - intros H0. destruct Young as [Y _]; [lia |].
    rewrite H0 in Y. exact Y.
  - intros H19. destruct Young as [Y _]; [lia |].
    destruct (Z.eqb_spec age 0); [lia | exact Y].
  - exact Old.
  - destruct (Z.le_gt_cases age 9) as [L | G].
    + destruct Young as [_ Y]; [lia | exact Y].
    + rewrite Old by lia. split; reflexivity.
Qed.

Lemma getAgeFactor_schedule_witness :
  in_int 2024 /\ in_int 2019 /\ in_int (2024 - 2019) /\
  InsuranceCalculator.getAgeFactor 2024 2019 = 0.85%float /\
  InsuranceCalculator.getAgeFactor 2024 2019
    = (1 - int_to_double 5 * 0.03)%float.
Proof.
  assert (Hc : in_int 2024) by (unfold in_int, INT_MIN, INT_MAX; lia).
  assert (Hy : in_int 2019) by (unfold in_int, INT_MIN, INT_MAX; lia).
  assert (Hd : in_int (2024 - 2019))
    by (unfold in_int, INT_MIN, INT_MAX; lia).
  split; [exact Hc |]. split; [exact Hy |]. split; [exact Hd |].
  split; [reflexivity |].
  destruct (getAgeFactor_schedule 2024 2019 Hc Hy Hd) as (_ & H & _).
  apply H. cbn. lia.
Defined.

(** ** Letter case *)

Lemma toupper_tolower (c : ascii) : toupper (tolower c) = toupper c.
Proof.
  destruct c as [[] [] [] [] [] [] [] []]; reflexivity.
Qed.

Lemma tolower_toupper (c : ascii) : tolower (toupper c) = tolower c.
Proof.
  destruct c as [[] [] [] [] [] [] [] []]; reflexivity.
Qed.

Lemma toupper_idempotent (c : ascii) : toupper (toupper c) = toupper c.
Proof.
  destruct c as [[] [] [] [] [] [] [] []]; reflexivity.
Qed.

Lemma tolower_idempotent (c : ascii) : tolower (tolower c) = tolower c.
Proof.
  destruct c as [[] [] [] [] [] [] [] []]; reflexivity.
Qed.

Lemma transform_compose (f g h : ascii -> ascii) (s : string) :
  (forall c, f (g c) = h c) ->
  transform f (transform g s) = transform h s.
Proof.
  intros H. induction s as [| c s IH]; cbn; [reflexivity |].
  now rewrite H, IH.
Qed.

(** X6.  [applyPromo] does not look at the letter case of the code: the
    code in lower case and the code in upper case earn the discount of
    the code as written. *)
Theorem applyPromo_case_insensitive (code : string) (subtotal : float) :
  PaymentProcessor.applyPromo (transform tolower code) subtotal
    = PaymentProcessor.applyPromo code subtotal /\
  PaymentProcessor.applyPromo (transform toupper code) subtotal
    = PaymentProcessor.applyPromo code subtotal.
Proof.
  unfold PaymentProcessor.applyPromo.
  rewrite (transform_compose toupper tolower toupper code toupper_tolower).
  rewrite (transform_compose toupper toupper toupper code toupper_idempotent).
  split; reflexivity.
Qed.

(** X7.  [getFuelTypeAdjustment] does not look at the letter case of the
    fuel type: the fuel type in upper case and in lower case get the
    adjustment of the fuel type as written. *)
Theorem getFuelTypeAdjustment_case_insensitive (fuelType : string) :
  InsuranceCalculator.getFuelTypeAdjustment (transform toupper fuelType)
    = InsuranceCalculator.getFuelTypeAdjustment fuelType /\
  InsuranceCalculator.getFuelTypeAdjustment (transform tolower fuelType)
    = InsuranceCalculator.getFuelTypeAdjustment fuelType.
Proof.
  unfold InsuranceCalculator.getFuelTypeAdjustment.
  rewrite (transform_compose tolower toupper tolower _ tolower_toupper).
  rewrite (transform_compose tolower tolower tolower _ tolower_idempotent).
  split; reflexivity.
Qed.

(** ** Signs of sums and products *)

Lemma SFnonneg_leb_zero (x : spec_float) :
  SFnonneg x -> SFleb (S754_zero false) x = true.
Proof.
  destruct x as [s | s | | s m e]; cbn; try contradiction;
    try (intros ->); reflexivity.
Qed.

Lemma nonneg_leb_zero (x : float) :
  SFnonneg (Prim2SF x) -> (0 <=? x)%float = true.
Proof. intros H. rewrite leb_spec. now apply SFnonneg_leb_zero. Qed.

Lemma SFadd_nonneg (x y : spec_float) :
  SFnonneg x -> SFnonneg y -> SFnonneg (SF64add x y).
Proof.
  destruct x as [sx | sx | | sx mx ex], y as [sy | sy | | sy my ey];
    cbn [SFnonneg]; try contradiction; intros Hx Hy; subst;
    unfold SF64add, SFadd; cbn [SFnonneg]; try reflexivity; try exact I.
  - destruct sx, sy; exact I.
  - cbn [cond_Zopp].
    change (Zpos (fst (shl_align mx ex (Z.min ex ey)))
            + Zpos (fst (shl_align my ey (Z.min ex ey))))
      with (Zpos (fst (shl_align mx ex (Z.min ex ey))
                  + fst (shl_align my ey (Z.min ex ey)))).
    cbn [binary_normalize].
    apply SFsigned_false_nonneg, binary_round_signed.
Qed.

Lemma add_nonneg (x y : float) :
  SFnonneg (Prim2SF x) -> SFnonneg (Prim2SF y) ->
  SFnonneg (Prim2SF (x + y)).
Proof. intros. rewrite add_spec. now apply SFadd_nonneg. Qed.

Lemma mul_nonneg_const (x c : float) :
  SFnonneg (Prim2SF x) -> SFpositive_finite (Prim2SF c) ->
  SFnonneg (Prim2SF (x * c)).
Proof. intros. rewrite mul_spec. now apply SFmul_nonneg. Qed.

Lemma const_mul_nonneg (c x : float) :
  SFpositive_finite (Prim2SF c) -> SFnonneg (Prim2SF x) ->
  SFnonneg (Prim2SF (c * x)).
Proof. intros. rewrite float_mul_comm. now apply mul_nonneg_const. Qed.

Lemma SFltb_zero_nonneg (x : spec_float) :
  SFltb (S754_zero false) x = true -> SFnonneg x.
Proof.
  destruct x as [s | [] | | [] m e]; cbn; try discriminate; auto.
Qed.

(** [std::max(0.0, x)] is a non-negative number whatever [x] is *)
Lemma std_max_zero_nonneg (x : float) : SFnonneg (Prim2SF (std_max 0 x)).
Proof.
  unfold std_max. destruct (0 <? x)%float eqn:L; [| exact I].
  rewrite ltb_spec in L. now apply SFltb_zero_nonneg.
Qed.

Lemma SFltb_leb (x y : spec_float) : SFltb x y = true -> SFleb x y = true.
Proof.
  unfold SFltb, SFleb. destruct (SFcompare x y) as [[] |]; easy.
Qed.

(** [std::min(c, x)] with a positive finite [c]: at most [c], and
    non-negative when [x] is. *)
Lemma std_min_cap (c x : float) :
  SFpositive_finite (Prim2SF c) ->
  (std_min c x <=? c)%float = true /\
  (SFnonneg (Prim2SF x) -> SFnonneg (Prim2SF (std_min c x))).
Proof.
  intros Hc. unfold std_min. destruct (x <? c)%float eqn:L.
  - split; [| auto]. rewrite leb_spec. rewrite ltb_spec in L.
    now apply SFltb_leb.
  - split.
    + rewrite leb_spec. destruct (Prim2SF c) as [| | | [] m e];
        try contradiction.
      unfold SFleb. now rewrite SFcompare_refl_finite.
    + intros _. destruct (Prim2SF c) as [| | | [] m e]; try contradiction.
      reflexivity.
Qed.

Lemma applyPromo_cap (code : string) (subtotal : float) :
  (PaymentProcessor.applyPromo code subtotal <=? 500)%float = true.
Proof.
  unfold PaymentProcessor.applyPromo.
  destruct (String.eqb _ "LOYAL5").
  - apply (std_min_cap 500 (0.05 * subtotal)%float I).
  - destruct (String.eqb _ "FIRST100"); reflexivity.
Qed.

Lemma applyPromo_nonneg (code : string) (subtotal : float) :
  SFnonneg (Prim2SF subtotal) ->
  SFnonneg (Prim2SF (PaymentProcessor.applyPromo code subtotal)).
Proof.
  intros H. unfold PaymentProcessor.applyPromo.
  destruct (String.eqb _ "LOYAL5").
  - apply (std_min_cap 500 (0.05 * subtotal)%float I).
    now apply const_mul_nonneg.
  - destruct (String.eqb _ "FIRST100"); [reflexivity | exact I].
Qed.

(** X8.  The discount [applyPromo] returns is at most 500 for every
    code and every subtotal (a NaN or infinite subtotal included), and
    is not negative when the subtotal is not. *)
Theorem applyPromo_bounds (code : string) (subtotal : float) :
  (PaymentProcessor.applyPromo code subtotal <=? 500)%float = true /\
  ((0 <=? subtotal)%float = true ->
   (0 <=? PaymentProcessor.applyPromo code subtotal)%float = true).
Proof.
  split; [apply applyPromo_cap |]. intros H.
  apply nonneg_leb_zero, applyPromo_nonneg. now apply leb_zero_nonneg.
Qed.

(** ** The parts of the bill *)

(** X9.  The tax and the total of a bill are never negative and never
    a NaN, whatever the method, the premium, the fine and the promo
    code are (negative, infinite and NaN amounts included): both are
    computed from the subtotal floored at 0. *)
Theorem quote_never_negative (method : PaymentProcessor.Method)
    (basePremium fine : float) (promoCode : string) :
  let b := PaymentProcessor.quote method basePremium fine promoCode in
  (0 <=? BillBreakdown.gst b)%float = true /\
  (0 <=? BillBreakdown.total b)%float = true.
Proof.
  intros b.
  set (post := std_max 0
                 (BillBreakdown.basePremium b + BillBreakdown.fine b
                  + BillBreakdown.convenienceFee b
                  + BillBreakdown.emiInterest b
                  - BillBreakdown.discount b)%float).
  assert (Hp : SFnonneg (Prim2SF post)) by apply std_max_zero_nonneg.
  assert (Hg : SFnonneg (Prim2SF (BillBreakdown.gst b))).
  { change (BillBreakdown.gst b) with (post * 0.18)%float.
    now apply mul_nonneg_const. }
  split; apply nonneg_leb_zero; [exact Hg |].
  change (BillBreakdown.total b) with (post + BillBreakdown.gst b)%float.
  now apply add_nonneg.
Qed.

(** X10.  For a premium and a fine that are not negative, the
    convenience fee lies between 0 and 150, the EMI interest is not
    negative and the discount lies between 0 and 500. *)
Theorem quote_fields_bounds (method : PaymentProcessor.Method)
    (basePremium fine : float) (promoCode : string) :
  (0 <=? basePremium)%float = true -> (0 <=? fine)%float = true ->
  let b := PaymentProcessor.quote method basePremium fine promoCode in
  (0 <=? BillBreakdown.convenienceFee b)%float = true /\
  (BillBreakdown.convenienceFee b <=? 150)%float = true /\
  (0 <=? BillBreakdown.emiInterest b)%float = true /\
  (0 <=? BillBreakdown.discount b)%float = true /\
  (BillBreakdown.discount b <=? 500)%float = true.
Proof.
  intros Hb Hf b.
  apply leb_zero_nonneg in Hb, Hf.
  assert (Hs : SFnonneg (Prim2SF (basePremium + fine))) by now apply add_nonneg.
  assert (Hc : SFnonneg (Prim2SF (BillBreakdown.convenienceFee b))
               /\ (BillBreakdown.convenienceFee b <=? 150)%float = true).
  { unfold b, PaymentProcessor.quote. cbn [BillBreakdown.convenienceFee].
    destruct (method =? PaymentProcessor.Card).
    - destruct (std_min_cap 150 (0.015 * (basePremium + fine))%float I)
        as [Hc Hn].
      split; [| exact Hc]. apply Hn. now apply const_mul_nonneg.
    - repeat (destruct (method =? _);
                [split; [first [exact I | reflexivity] | reflexivity] |]).
      split; [exact I | reflexivity]. }
  assert (He : SFnonneg (Prim2SF (BillBreakdown.emiInterest b))).
  { unfold b, PaymentProcessor.quote. cbn [BillBreakdown.emiInterest].
    destruct (method =? PaymentProcessor.EMI3),
             (method =? PaymentProcessor.EMI6); cbn [Z.gtb Z.compare];
      try exact I;
      (apply mul_nonneg_const; [| exact I]);
      apply const_mul_nonneg; [exact I | exact Hs | exact I | exact Hs
                               | exact I | exact Hs]. }
  destruct Hc as [Hc Hc150].
  assert (Hd := quote_discount method basePremium fine promoCode).
  cbv zeta in Hd. fold b in Hd.
  split; [now apply nonneg_leb_zero |]. split; [exact Hc150 |].
  split; [now apply nonneg_leb_zero |].
  rewrite Hd. split.
  - apply nonneg_leb_zero, applyPromo_nonneg.
    repeat apply add_nonneg; assumption.
  - apply applyPromo_cap.
Qed.

Lemma quote_fields_bounds_witness :
  (0 <=? 12500)%float = true /\ (0 <=? 3500)%float = true /\
  (BillBreakdown.convenienceFee
     (PaymentProcessor.quote PaymentProcessor.Card 12500 3500 "LOYAL5")
   <=? 150)%float = true /\
  (BillBreakdown.discount
     (PaymentProcessor.quote PaymentProcessor.Card 12500 3500 "LOYAL5")
   <=? 500)%float = true.
Proof.
  split; [reflexivity |]. split; [reflexivity |].
  destruct (quote_fields_bounds PaymentProcessor.Card 12500 3500 "LOYAL5"
              eq_refl eq_refl) as (_ & Hc & _ & _ & Hd).
  split; [exact Hc | exact Hd].
Defined.

(** ** Trimming a line *)

Lemma substring_0_0 (s : string) : substring 0 0 s = "".
Proof. destruct s; reflexivity. Qed.

Lemma find_last_none (s : string) :
  find_last_not_of s = None <-> all_blank s = true.
Proof.
  induction s as [| c s IH]; cbn; [tauto |].
  destruct (find_last_not_of s) as [i |].
  - split; [discriminate |]. rewrite andb_true_iff. intros [_ H].
    apply IH in H. discriminate.
  - destruct IH as [IH _]. rewrite (IH eq_refl), andb_true_r.
    destruct (is_blank c); split; congruence.
Qed.

Lemma find_first_none (s : string) :
  find_first_not_of s = None <-> all_blank s = true.
Proof.
  induction s as [| c s IH]; cbn; [tauto |].
  destruct (is_blank c); cbn; [| split; discriminate].
  rewrite <- IH. destruct (find_first_not_of s); cbn; split; congruence.
Qed.

(** Where there is a first character outside the set there is a last
    one. *)
Lemma find_last_of_first (s : string) :
  find_first_not_of s <> None -> find_last_not_of s <> None.
Proof.
  intros H E. apply H. apply find_first_none, find_last_none, E.
Qed.

Lemma getLineTrimmed_blank (c : ascii) (s : string) :
  is_blank c = true -> getLineTrimmed (String c s) = getLineTrimmed s.
Proof.
  intros Hc. unfold getLineTrimmed. cbn [find_first_not_of find_last_not_of].
  rewrite Hc.
  destruct (find_first_not_of s) as [l |] eqn:Fl; cbn [option_map];
    [| reflexivity].
  destruct (find_last_not_of s) as [r |] eqn:Fr; [reflexivity |].
  apply find_last_none, find_first_none in Fr. congruence.
Qed.

Lemma trim_end_cons (c : ascii) (s : string) :
  trim_end (String c s)
  = if is_blank c && all_blank s then "" else String c (trim_end s).
Proof.
  unfold trim_end. cbn [find_last_not_of].
  destruct (find_last_not_of s) as [r |] eqn:Fr.
  - assert (A : all_blank s = false).
    { destruct (all_blank s) eqn:A; [| reflexivity].
      apply find_last_none in A. congruence. }
    rewrite A, andb_false_r. replace (S r + 1)%nat with (S (r + 1)) by lia.
    reflexivity.
  - apply find_last_none in Fr. rewrite Fr, andb_true_r.
    destruct (is_blank c); [reflexivity |].
    cbn. now rewrite substring_0_0.
Qed.

Lemma getLineTrimmed_nonblank (c : ascii) (s : string) :
  is_blank c = false -> getLineTrimmed (String c s) = String c (trim_end s).
Proof.
  intros Hc. unfold getLineTrimmed, trim_end.
  cbn [find_first_not_of find_last_not_of]. rewrite Hc.
  destruct (find_last_not_of s) as [r |].
  - replace (S r - 0 + 1)%nat with (S (r + 1)) by lia. reflexivity.
  - cbn. now rewrite substring_0_0.
Qed.

Lemma trim_end_decompose (s : string) :
  exists post, s = trim_end s ++ post /\ all_blank post = true.
Proof.
  induction s as [| c s (post & E & B)]; [exists ""; split; reflexivity |].
  rewrite trim_end_cons.
  destruct (is_blank c && all_blank s) eqn:A.
  - exists (String c s). split; [reflexivity | exact A].
  - exists post. split; [cbn; now rewrite <- E | exact B].
Qed.

Lemma trim_end_empty (s : string) :
  trim_end s = "" <-> all_blank s = true.
Proof.
  destruct s as [| c s]; [cbn; tauto |].
  rewrite trim_end_cons. destruct (is_blank c && all_blank s) eqn:A.
  - cbn [all_blank]. tauto.
  - cbn [all_blank]. rewrite A. split; discriminate.
Qed.

Lemma trim_end_last (s : string) (c : ascii) :
  last_char (trim_end s) = Some c -> is_blank c = false.
Proof.
  induction s as [| a s IH]; [discriminate |].
  rewrite trim_end_cons.
  destruct (is_blank a && all_blank s) eqn:A; [discriminate |].
  cbn [last_char]. destruct (trim_end s) as [| b t] eqn:T.
  - intros [= <-]. apply trim_end_empty in T. rewrite T, andb_true_r in A.
    exact A.
  - exact IH.
Qed.

Lemma trim_end_padded (u post : string) :
  all_blank post = true ->
  (forall c, last_char u = Some c -> is_blank c = false) ->
  trim_end (u ++ post) = u.
Proof.
  intros Hp. induction u as [| b u IH]; intros Hl.
  - cbn [append]. now apply trim_end_empty.
  - cbn [append]. rewrite trim_end_cons.
    destruct u as [| b' u'].
    + cbn [append]. rewrite Hp, andb_true_r, (Hl b eq_refl).
      f_equal. now apply trim_end_empty.
    + assert (E : trim_end (String b' u' ++ post) = String b' u')
        by (apply IH; intros c Hc; apply Hl; exact Hc).
      assert (A : all_blank (String b' u' ++ post) = false).
      { destruct (all_blank (String b' u' ++ post)) eqn:A; [| reflexivity].
        apply trim_end_empty in A. congruence. }
      now rewrite A, andb_false_r, E.
Qed.

(** A line of blanks only is trimmed to the empty string, and no other
    line is. *)
Lemma getLineTrimmed_empty (s : string) :
  getLineTrimmed s = "" <-> all_blank s = true.
Proof.
  induction s as [| a s IH]; [cbn; tauto |].
  destruct (is_blank a) eqn:Ha.
  - rewrite (getLineTrimmed_blank a s Ha). cbn [all_blank].
    rewrite Ha. exact IH.
  - rewrite (getLineTrimmed_nonblank a s Ha). cbn [all_blank].
    rewrite Ha. split; discriminate.
Qed.

(** The trimmed line neither starts nor ends with a blank. *)
Lemma getLineTrimmed_ends (s : string) :
  (forall c t, getLineTrimmed s = String c t -> is_blank c = false) /\
  (forall c, last_char (getLineTrimmed s) = Some c -> is_blank c = false).
Proof.
  induction s as [| a s IH]; [split; discriminate |].
  destruct (is_blank a) eqn:Ha.
  - rewrite (getLineTrimmed_blank a s Ha). exact IH.
  - rewrite (getLineTrimmed_nonblank a s Ha). split.
    + intros c t [= <- _]. exact Ha.
    + cbn [last_char]. destruct (trim_end s) as [| b t] eqn:T.
      * intros c [= <-]. exact Ha.
      * rewrite <- T. apply trim_end_last.
Qed.

(** X11.  [getLineTrimmed] returns the line without the blanks (space,
    tab, carriage return, line feed) at its two ends and nothing else
    removed: the line is blanks, the result, blanks; the result neither
    starts nor ends with a blank; it is empty exactly when the line
    holds blanks only (the empty line included). *)
Theorem getLineTrimmed_decompose (s : string) :
  (exists pre post,
     s = pre ++ getLineTrimmed s ++ post /\
     all_blank pre = true /\ all_blank post = true) /\
  (forall c t, getLineTrimmed s = String c t -> is_blank c = false) /\
  (forall c, last_char (getLineTrimmed s) = Some c -> is_blank c = false) /\
  (getLineTrimmed s = "" <-> all_blank s = true).
Proof.
  split; [| split; [apply getLineTrimmed_ends |
                    split; [apply getLineTrimmed_ends |
                            apply getLineTrimmed_empty]]].
  induction s as [| a s (pre & post & E & Bp & Bq)].
  - exists "", "". repeat split.
  - destruct (is_blank a) eqn:Ha.
    + rewrite (getLineTrimmed_blank a s Ha).
      exists (String a pre), post. cbn [append all_blank].
      rewrite Ha, Bp. split; [now rewrite <- E | split; [reflexivity | exact Bq]].
    + rewrite (getLineTrimmed_nonblank a s Ha).
      destruct (trim_end_decompose s) as (post' & E' & B').
      exists "", post'. cbn [append].
      split; [now rewrite <- E' | split; [reflexivity | exact B']].
Qed.

(** X12.  Trimming a line that [getLineTrimmed] returned changes
    nothing. *)
Theorem getLineTrimmed_idempotent (s : string) :
  getLineTrimmed (getLineTrimmed s) = getLineTrimmed s.
Proof.
  destruct (getLineTrimmed_ends s) as (H1 & H2).
  destruct (getLineTrimmed s) as [| c t] eqn:E; [reflexivity |].
  rewrite (getLineTrimmed_nonblank c t (H1 c t eq_refl)).
  f_equal. replace t with (t ++ "") at 1.
  - apply trim_end_padded; [reflexivity |].
    intros d Hd. apply H2.
    cbn [last_char]. destruct t; [discriminate | exact Hd].
  - clear. induction t as [| a t IH]; cbn; [reflexivity | now rewrite IH].
Qed.

(** X13.  Blanks typed around a text are not part of what
    [getLineTrimmed] returns: for a text that neither starts nor ends
    with a blank (blanks inside it are allowed), the line made of
    blanks, the text and blanks is trimmed to the text. *)
Theorem getLineTrimmed_padded (pre text post : string) :
  all_blank pre = true -> all_blank post = true ->
  (forall c t, text = String c t -> is_blank c = false) ->
  (forall c, last_char text = Some c -> is_blank c = false) ->
  getLineTrimmed (pre ++ text ++ post) = text.
Proof.
  intros Hpre Hpost Hf Hl. induction pre as [| a pre IH].
  - cbn [append]. destruct text as [| c t].
    + cbn [append]. now apply getLineTrimmed_empty.
    + cbn [append].
      rewrite (getLineTrimmed_nonblank c _ (Hf c t eq_refl)). f_equal.
      apply trim_end_padded; [exact Hpost |].
      intros d Hd. apply Hl. cbn [last_char].
      destruct t; [discriminate | exact Hd].
  - cbn [all_blank] in Hpre. apply andb_true_iff in Hpre as [Ha Hpre].
    cbn [append]. rewrite (getLineTrimmed_blank a _ Ha). now apply IH.
Qed.

Lemma getLineTrimmed_padded_witness :
  getLineTrimmed ("  " ++ "Maruti Suzuki" ++ String "009" " ")
  = "Maruti Suzuki".
Proof.
  apply (getLineTrimmed_padded "  " "Maruti Suzuki" (String "009" " "));
    try reflexivity.
  - intros c t [= <- _]. reflexivity.
  - intros c [= <-]. reflexivity.
Defined.

(** ** Reading a date *)

(** X14.  [getValidDate] returns the first attempt that reads three
    numbers with the month in 1..12, the day in 1..31 and the year after
    1900: every attempt before it is unreadable or fails that test, and
    the date returned passes it.  If no attempt passes, it does not
    return. *)
Theorem getValidDate_first_acceptable (input : list DateEntry) :
  match getValidDate input with
  | Some date =>
      getValidDate_ok date = true /\
      exists skipped rest,
        input = (skipped
                   ++ Entered (PolicyDate.day date) (PolicyDate.month date)
                        (PolicyDate.year date) :: rest)%list /\
        forallb (fun e => negb (acceptable e)) skipped = true
  | None => forallb (fun e => negb (acceptable e)) input = true
  end.
Proof.
  induction input as [| e input IH]; [reflexivity |].
  destruct e as [| d m y]; cbn [getValidDate].
  - destruct (getValidDate input) as [date |].
    + destruct IH as (Hok & skipped & rest & -> & Hs).
      split; [exact Hok |].
      exists (Unreadable :: skipped), rest. split; [reflexivity | exact Hs].
    + exact IH.
  - destruct (getValidDate_ok (PolicyDate.mk d m y)) eqn:Hok.
    + split; [exact Hok |]. exists nil, input. split; reflexivity.
    + destruct (getValidDate input) as [date |].
      * destruct IH as (Hd & skipped & rest & -> & Hs).
        split; [exact Hd |].
        exists (Entered d m y :: skipped), rest. split; [reflexivity |].
        cbn [forallb acceptable]. now rewrite Hok.
      * cbn [forallb acceptable]. now rewrite Hok.
Qed.

(** ** The status over time *)

Lemma evaluateStatus_expired_iff (v : Vehicle.t) (cur : PolicyDate.t) :
  StatusResult.expired (evaluateStatus v cur) = true <->
  daysBetween (Vehicle.getRenewalDueDate v) cur < - 30.
Proof.
  set (diff := daysBetween (Vehicle.getRenewalDueDate v) cur).
  assert (C : 0 <= diff \/ - 30 <= diff < 0 \/ diff < - 30) by lia.
  destruct C as [C | [C | C]].
  - rewrite (evaluateStatus_active v cur C). cbn. split; [discriminate | lia].
  - rewrite (evaluateStatus_grace v cur C). cbn. split; [discriminate | lia].
  - rewrite (evaluateStatus_expired v cur C). cbn. split; [lia | reflexivity].
Qed.

Lemma evaluateStatus_active_iff (v : Vehicle.t) (cur : PolicyDate.t) :
  StatusResult.status (evaluateStatus v cur) = "Active" <->
  0 <= daysBetween (Vehicle.getRenewalDueDate v) cur.
Proof.
  set (diff := daysBetween (Vehicle.getRenewalDueDate v) cur).
  assert (C : 0 <= diff \/ - 30 <= diff < 0 \/ diff < - 30) by lia.
  destruct C as [C | [C | C]].
  - rewrite (evaluateStatus_active v cur C). cbn. split; [lia | reflexivity].
  - rewrite (evaluateStatus_grace v cur C). cbn. split; [discriminate | lia].
  - rewrite (evaluateStatus_expired v cur C). cbn. split; [discriminate | lia].
Qed.

(** The fine in terms of the day difference, while the overdue days fit
    an [int]. *)
Lemma evaluateStatus_fine_SFint (v : Vehicle.t) (cur : PolicyDate.t) :
  - INT_MAX <= daysBetween (Vehicle.getRenewalDueDate v) cur < - 30 ->
  Prim2SF (StatusResult.fine (evaluateStatus v cur))
  = SFint ((- daysBetween (Vehicle.getRenewalDueDate v) cur - 30) * 50).
Proof.
  intros [Hr C]. rewrite (evaluateStatus_expired v cur C).
  cbn [StatusResult.fine]. unfold INT_MAX in Hr.
  rewrite static_cast_int_id by (unfold in_int, INT_MIN, INT_MAX; lia).
  apply calculateLateFine_SFint. unfold INT_MAX. lia.
Qed.

Lemma evaluateStatus_fine_zero (v : Vehicle.t) (cur : PolicyDate.t) :
  - 30 <= daysBetween (Vehicle.getRenewalDueDate v) cur ->
  StatusResult.fine (evaluateStatus v cur) = 0%float.
Proof.
  intros H. apply evaluateStatus_not_expired_fine.
  destruct (StatusResult.expired (evaluateStatus v cur)) eqn:E;
    [| reflexivity].
  apply evaluateStatus_expired_iff in E. lia.
Qed.

Lemma SFleb_zero_SFint (n : Z) :
  0 < n < 2 ^ 53 -> SFleb (S754_zero false) (SFint n) = true.
Proof.
  intros H. destruct (SFint_canonical n H) as (c & k & E & _).
  rewrite E. reflexivity.
Qed.

Lemma SFleb_int (a b : Z) :
  0 < a <= b -> b < 2 ^ 53 -> SFleb (SFint a) (SFint b) = true.
Proof.
  intros H Hb. unfold SFleb. rewrite SFcompare_int by lia.
  destruct (Z.compare_spec a b); [reflexivity | reflexivity | lia].
Qed.

(** X15.  Time only moves a policy towards expiry.  For a current date
    [later] that is not before [today]: a policy expired today is
    expired later, a policy active later is active today, and the fine
    later is not less than the fine today (as long as the overdue days
    fit an [int]). *)
Theorem evaluateStatus_later (v : Vehicle.t) (today later : PolicyDate.t) :
  0 <= daysBetween later today ->
  (StatusResult.expired (evaluateStatus v today) = true ->
   StatusResult.expired (evaluateStatus v later) = true) /\
  (StatusResult.status (evaluateStatus v later) = "Active" ->
   StatusResult.status (evaluateStatus v today) = "Active") /\
  (- INT_MAX <= daysBetween (Vehicle.getRenewalDueDate v) later ->
   (StatusResult.fine (evaluateStatus v today)
      <=? StatusResult.fine (evaluateStatus v later))%float = true).
Proof.
  intros H.
  set (d1 := daysBetween (Vehicle.getRenewalDueDate v) today).
  set (d2 := daysBetween (Vehicle.getRenewalDueDate v) later).
  assert (Hle : d2 <= d1).
  { unfold d1, d2. rewrite !daysBetween_dayNumber in *. lia. }
  split; [| split].
  - rewrite !evaluateStatus_expired_iff. fold d1 d2. lia.
  - rewrite !evaluateStatus_active_iff. fold d1 d2. lia.
  - intros Hr. fold d2 in Hr. unfold INT_MAX in Hr. rewrite leb_spec.
    destruct (Z.lt_ge_cases d2 (- 30)) as [E2 | N2].
    + rewrite (evaluateStatus_fine_SFint v later)
        by (fold d2; unfold INT_MAX; lia).
      fold d2.
      destruct (Z.lt_ge_cases d1 (- 30)) as [E1 | N1].
      * rewrite (evaluateStatus_fine_SFint v today)
          by (fold d1; unfold INT_MAX; lia).
        fold d1. apply SFleb_int; lia.
      * rewrite (evaluateStatus_fine_zero v today) by (fold d1; lia).
        apply SFleb_zero_SFint. lia.
    + rewrite (evaluateStatus_fine_zero v later) by (fold d2; lia).
      rewrite (evaluateStatus_fine_zero v today) by (fold d1; lia).
      reflexivity.
Qed.

Lemma evaluateStatus_later_witness :
  let v := Vehicle.new "Tata" "Nexon" 2020 500000%float "Diesel"
             (PolicyDate.mk 10 1 2023) in
  0 <= daysBetween (PolicyDate.mk 1 6 2024) (PolicyDate.mk 1 3 2024) /\
  StatusResult.expired (evaluateStatus v (PolicyDate.mk 1 3 2024)) = true /\
  StatusResult.expired (evaluateStatus v (PolicyDate.mk 1 6 2024)) = true /\
  (StatusResult.fine (evaluateStatus v (PolicyDate.mk 1 3 2024))
     <=? StatusResult.fine (evaluateStatus v (PolicyDate.mk 1 6 2024)))%float
  = true.
Proof.
  intros v.
  assert (H : 0 <= daysBetween (PolicyDate.mk 1 6 2024)
                     (PolicyDate.mk 1 3 2024)) by (vm_compute; discriminate).
  destruct (evaluateStatus_later v (PolicyDate.mk 1 3 2024)
              (PolicyDate.mk 1 6 2024) H) as (He & _ & Hf).
  split; [exact H |]. split; [reflexivity |].
  split; [apply He; reflexivity |].
  apply Hf. vm_compute. discriminate.
Defined.

(** X16.  For a due date and a current date that [getValidDate] accepts,
    with years up to 5000000, an expired policy is overdue by more than
    30 days and at most [INT_MAX] days, and its fine is exactly
    [(overdueDays - 30) * 50], which is at least 50: within that range
    of dates the conversion of the overdue days to [int] loses
    nothing. *)
Theorem evaluateStatus_fine_accepted_dates (v : Vehicle.t)
    (cur : PolicyDate.t) :
  getValidDate_ok (Vehicle.getRenewalDueDate v) = true ->
  getValidDate_ok cur = true ->
  PolicyDate.year (Vehicle.getRenewalDueDate v) <= 5000000 ->
  PolicyDate.year cur <= 5000000 ->
  StatusResult.expired (evaluateStatus v cur) = true ->
  let overdueDays := - daysBetween (Vehicle.getRenewalDueDate v) cur in
  30 < overdueDays <= INT_MAX /\
  StatusResult.fine (evaluateStatus v cur)
    = int_to_double ((overdueDays - 30) * 50) /\
  (50 <=? StatusResult.fine (evaluateStatus v cur))%float = true.
Proof.
  intros Hd Hc Yd Yc He overdueDays.
  pose proof (dayNumber_bounds _ Hd Yd) as Bd.
  pose proof (dayNumber_bounds _ Hc Yc) as Bc.
  apply evaluateStatus_expired_iff in He.
  assert (R : 30 < overdueDays <= INT_MAX).
  { unfold overdueDays, INT_MAX in *.
    rewrite daysBetween_dayNumber in *. lia. }
  assert (F : Prim2SF (StatusResult.fine (evaluateStatus v cur))
              = SFint ((overdueDays - 30) * 50)).
  { apply evaluateStatus_fine_SFint. unfold overdueDays in R. lia. }
  unfold INT_MAX in R.
  split; [unfold INT_MAX; lia |]. split.
  - apply float_of_SFint; [lia | exact F].
  - rewrite leb_spec, F. change (Prim2SF 50) with (SFint 50).
    apply SFleb_int; lia.
Qed.

Lemma evaluateStatus_fine_accepted_dates_witness :
  let v := Vehicle.new "Tata" "Nexon" 2020 500000%float "Diesel"
             (PolicyDate.mk 10 1 2023) in
  let cur := PolicyDate.mk 1 3 2024 in
  getValidDate_ok (Vehicle.getRenewalDueDate v) = true /\
  getValidDate_ok cur = true /\
  StatusResult.expired (evaluateStatus v cur) = true /\
  - daysBetween (Vehicle.getRenewalDueDate v) cur = 51 /\
  StatusResult.fine (evaluateStatus v cur) = int_to_double ((51 - 30) * 50).
Proof.
  intros v cur.
  assert (Yd : PolicyDate.year (Vehicle.getRenewalDueDate v) <= 5000000)
    by (vm_compute; discriminate).
  assert (Yc : PolicyDate.year cur <= 5000000) by (vm_compute; discriminate).
  destruct (evaluateStatus_fine_accepted_dates v cur eq_refl eq_refl Yd Yc
              eq_refl) as (_ & Hf & _).
  split; [reflexivity |]. split; [reflexivity |]. split; [reflexivity |].
  split; [reflexivity |]. exact Hf.
Defined.

(** ** The renewal, continued *)

(** The vehicle [performRenewal] leaves, by what is entered. *)
Lemma performRenewal_vehicle (currentYear : Z) (io : Console) (v : Vehicle.t)
    (currentDate : PolicyDate.t) :
  fst (performRenewal currentYear io v currentDate) =
  if renewalCommits io v currentDate then
    Vehicle.setPolicyStatus
      (Vehicle.setRenewalDueDate v
         (calculateRenewalDate (Vehicle.getRenewalDueDate v))) "Active"
  else if StatusResult.expired (evaluateStatus v currentDate) then
    Vehicle.setPolicyStatus v "OVERDUE / EXPIRED"
  else v.
Proof.
  unfold renewalCommits.
  pose proof (performRenewal_outcome currentYear io v currentDate) as O.
  destruct (performRenewal_cases currentYear io v currentDate)
    as [[E R] | [E [R | [R | (b & m & R)]]]];
    rewrite R in *; rewrite E; cbn [fst snd] in *.
  - reflexivity.
  - destruct O as [_ O].
    replace ((1 <=? enteredChoice io) && (enteredChoice io <=? 6)) with false;
      [reflexivity |].
    symmetry. apply andb_false_iff. rewrite !Z.leb_gt. lia.
  - destruct O as (_ & _ & Ny & NY).
    apply Ascii.eqb_neq in Ny, NY. rewrite Ny, NY.
    now rewrite andb_false_r.
  - destruct O as (_ & Hc & Hk & _).
    replace ((1 <=? enteredChoice io) && (enteredChoice io <=? 6)) with true
      by (symmetry; apply andb_true_iff; rewrite !Z.leb_le; lia).
    replace (Ascii.eqb (enteredConfirm io) "y"
             || Ascii.eqb (enteredConfirm io) "Y")%bool with true;
      [reflexivity |].
    symmetry. apply orb_true_iff. rewrite !Ascii.eqb_eq. exact Hk.
Qed.

(** The receipt is the outcome of the runs that commit, and of no
    other. *)
Lemma performRenewal_renewed_iff (currentYear : Z) (io : Console)
    (v : Vehicle.t) (currentDate : PolicyDate.t) :
  (exists o n b m,
     snd (performRenewal currentYear io v currentDate) = Renewed o n b m)
  <-> renewalCommits io v currentDate = true.
Proof.
  unfold renewalCommits.
  pose proof (performRenewal_outcome currentYear io v currentDate) as O.
  destruct (snd (performRenewal currentYear io v currentDate))
    as [| | | o n b m] eqn:R.
  - rewrite O. split; [intros (o & n & b & m & [=]) | discriminate].
  - destruct O as [_ O]. split; [intros (o & n & b & m & [=]) |].
    rewrite !andb_true_iff, !Z.leb_le. lia.
  - destruct O as (_ & _ & Ny & NY). split; [intros (o & n & b & m & [=]) |].
    apply Ascii.eqb_neq in Ny, NY. rewrite Ny, NY, andb_false_r.
    discriminate.
  - destruct O as (E & Hc & Hk & _). split; [intros _ | eauto].
    rewrite E, !andb_true_iff, !Z.leb_le, orb_true_iff, !Ascii.eqb_eq.
    repeat split; try lia. exact Hk.
Qed.

(** X17.  [performRenewal] advances the due date by a year and sets the
    status to "Active" exactly when the policy is expired, the method
    chosen is one of 1..6 and the answer to the payment question is [y]
    or [Y].  In every other run the due date is left as it was and the
    status is the one it had or "OVERDUE / EXPIRED". *)
Theorem performRenewal_commit_iff (currentYear : Z) (io : Console)
    (v : Vehicle.t) (currentDate : PolicyDate.t) :
  let v' := fst (performRenewal currentYear io v currentDate) in
  (renewalCommits io v currentDate = true ->
   Vehicle.getRenewalDueDate v'
     = calculateRenewalDate (Vehicle.getRenewalDueDate v) /\
   Vehicle.getPolicyStatus v' = "Active") /\
  (renewalCommits io v currentDate = false ->
   Vehicle.getRenewalDueDate v' = Vehicle.getRenewalDueDate v /\
   (Vehicle.getPolicyStatus v' = Vehicle.getPolicyStatus v \/
    Vehicle.getPolicyStatus v' = "OVERDUE / EXPIRED")).
Proof.
  intros v'. unfold v'. rewrite performRenewal_vehicle.
  split; intros ->.
  - split; reflexivity.
  - destruct (StatusResult.expired _); cbn; auto.
Qed.

(** X18.  A receipt is issued exactly when the due date of the vehicle
    has changed.  The receipt then shows the due date the vehicle had
    and the one it has now, a year later, with the status "Active"; its
    method is the one chosen and its bill is the quote for that method,
    the premium, the evaluated fine and the promo code entered. *)
Theorem performRenewal_receipt (currentYear : Z) (io : Console)
    (v : Vehicle.t) (currentDate : PolicyDate.t) :
  let run := performRenewal currentYear io v currentDate in
  ((exists o n b m, snd run = Renewed o n b m) <->
   Vehicle.getRenewalDueDate (fst run) <> Vehicle.getRenewalDueDate v) /\
  (forall o n b m, snd run = Renewed o n b m ->
   o = Vehicle.getRenewalDueDate v /\
   n = Vehicle.getRenewalDueDate (fst run) /\
   n = calculateRenewalDate o /\
   Vehicle.getPolicyStatus (fst run) = "Active" /\
   m = enteredChoice io /\
   b = PaymentProcessor.quote m
         (InsuranceCalculator.calculatePremium currentYear v)
         (StatusResult.fine (evaluateStatus v currentDate))
         (enteredPromo io)).
Proof.
  intros run. unfold run.
  assert (N : forall d, calculateRenewalDate d <> d).
  { intros [d m y] E. apply (f_equal PolicyDate.year) in E.
    exact (int_add_1_neq y E). }
  split.
  - rewrite performRenewal_renewed_iff, performRenewal_vehicle.
    destruct (renewalCommits io v currentDate).
    + split; [intros _; apply N | reflexivity].
    + split; [discriminate |].
      destruct (StatusResult.expired _); intros H; now elim H.
  - intros o n b m R.
    pose proof (performRenewal_outcome currentYear io v currentDate) as O.
    rewrite R in O. destruct O as (_ & _ & _ & Em & Eb).
    destruct (performRenewal_cases currentYear io v currentDate)
      as [[_ C] | [_ [C | [C | (b' & m' & C)]]]];
      rewrite C in R; cbn [snd] in R; try discriminate.
    injection R as <- <- _ _. rewrite C. cbn [fst].
    repeat split; assumption.
Qed.



(** ** The whole run *)

(** X20.  What [main] leaves in the policy.  The registration date is
    the one entered.  With [diff] the days from the current date to the
    first due date (registration plus one year): for [diff >= 0] the
    due date stays and the status is "Active"; for [-30 <= diff < 0]
    the due date stays and the status is "Due (Grace Period)"; for
    [diff < -30] a method in 1..6 with the answer [y] or [Y] moves the
    due date to registration plus two years with status "Active", and
    anything else leaves the due date with status "OVERDUE / EXPIRED".
    The run ends on "renewal is disabled" exactly when [diff >= -30]:
    the guard of [performRenewal] never fires under [main]. *)
Theorem main_policy (currentYear : Z) (make model : string) (year : Z)
    (originalValue : float) (fuelType : string)
    (regDate currentDate : PolicyDate.t) (io : Console) :
  let run := main currentYear make model year originalValue fuelType
               regDate currentDate io in
  let v := fst run in
  let due := calculateRenewalDate regDate in
  let diff := daysBetween due currentDate in
  Vehicle.getRegistrationDate v = regDate /\
  (0 <= diff ->
   Vehicle.getRenewalDueDate v = due /\ Vehicle.getPolicyStatus v = "Active") /\
  (- 30 <= diff < 0 ->
   Vehicle.getRenewalDueDate v = due /\
   Vehicle.getPolicyStatus v = "Due (Grace Period)") /\
  (diff < - 30 ->
   if ((1 <=? enteredChoice io) && (enteredChoice io <=? 6))
      && (Ascii.eqb (enteredConfirm io) "y"
          || Ascii.eqb (enteredConfirm io) "Y")
   then Vehicle.getRenewalDueDate v = calculateRenewalDate due /\
        Vehicle.getPolicyStatus v = "Active"
   else Vehicle.getRenewalDueDate v = due /\
        Vehicle.getPolicyStatus v = "OVERDUE / EXPIRED") /\
  (snd run = RenewalDisabled <-> - 30 <= diff).
Proof.
  intros run v due diff. unfold v, run, main.
  set (v0 := Vehicle.new make model year originalValue fuelType regDate).
  assert (Ed : Vehicle.getRenewalDueDate v0 = due) by reflexivity.
  set (u := Vehicle.setPolicyStatus v0
              (StatusResult.status (evaluateStatus v0 currentDate))).
  assert (Eu : evaluateStatus u currentDate = evaluateStatus v0 currentDate)
    by reflexivity.
  assert (C : 0 <= diff \/ - 30 <= diff < 0 \/ diff < - 30) by lia.
  unfold diff in *. rewrite <- Ed in *.
  destruct C as [C | [C | C]].
  - unfold u. rewrite (evaluateStatus_active v0 currentDate C).
    cbn [StatusResult.expired StatusResult.status fst snd].
    repeat split; intros; try lia; reflexivity.
  - unfold u. rewrite (evaluateStatus_grace v0 currentDate C).
    cbn [StatusResult.expired StatusResult.status fst snd].
    repeat split; intros; try lia; reflexivity.
  - assert (He : StatusResult.expired (evaluateStatus v0 currentDate) = true)
      by (apply evaluateStatus_expired_iff; exact C).
    rewrite He, performRenewal_vehicle. unfold renewalCommits.
    rewrite Eu, He. cbn [andb].
    split; [| split; [| split; [| split]]].
    + destruct (_ && _); reflexivity.
    + intros; lia.
    + intros; lia.
    + intros _. destruct (_ && _); split; reflexivity.
    + split; [| intros; lia]. intros R.
      pose proof (performRenewal_outcome currentYear io u currentDate) as O.
      rewrite R, Eu, He in O. discriminate.
Qed.
